(** * License handler of the cafe POS desktop application

    A shallow embedding of [src/main/license-handler.ts] (class
    [LicenseHandler]) together with the parts of the Node runtime it calls:
    the [aes-256-cbc] cipher of [crypto] with its [hex] and [utf8] encodings,
    [JSON.stringify] and [JSON.parse], the license file, the clock and the
    HTTP client.

    Conventions.
    - A JavaScript string is modelled by its UTF-8 bytes ([string]); a
      [Buffer] is a [list byte].
    - The [number] fields of a license are modelled on the integers ([Z]);
      fractional and non-finite floating point values are outside the model.
    - A JavaScript exception is modelled by [None]; every function is total.
      Reading, writing and removing the license file do not fail.
    - The [async] methods are modelled by explicit state passing over a
      [World] that holds the handler's field, the license file, the clock
      and the log of the requests posted.
    - The hash behind the hardware fingerprint, the [scrypt] key derivation
      and the text format of [Date] are parameters ([Platform]). *)

From Stdlib Require Import String Ascii Bool Arith NArith ZArith QArith Lia Btauto.
From Stdlib Require Import DecimalString DecimalFacts DecimalN.
From Stdlib Require Import List.
Import ListNotations.
Close Scope Q_scope.
Open Scope string_scope.
Open Scope nat_scope.
Open Scope list_scope.

(* ================================================================== *)
(** * Part I. Definitions                                              *)
(* ================================================================== *)

(** ** Bytes and the field GF(2^8) *)

Module GF256.

Definition byte : Type := ascii.

Definition zero : byte := Ascii.zero.

Definition bxor (a b : byte) : byte :=
  match a, b with
  | Ascii a0 a1 a2 a3 a4 a5 a6 a7, Ascii b0 b1 b2 b3 b4 b5 b6 b7 =>
      Ascii (xorb a0 b0) (xorb a1 b1) (xorb a2 b2) (xorb a3 b3)
            (xorb a4 b4) (xorb a5 b5) (xorb a6 b6) (xorb a7 b7)
  end.

(** Multiplication by [x] modulo [x^8 + x^4 + x^3 + x + 1]. *)
Definition xtime (a : byte) : byte :=
  match a with
  | Ascii a0 a1 a2 a3 a4 a5 a6 a7 =>
      Ascii a7 (xorb a0 a7) a1 (xorb a2 a7) (xorb a3 a7) a4 a5 a6
  end.

Definition bit (a : byte) (i : nat) : bool :=
  match a with
  | Ascii a0 a1 a2 a3 a4 a5 a6 a7 =>
      nth i [a0; a1; a2; a3; a4; a5; a6; a7] false
  end.

Fixpoint gmul_aux (n : nat) (a b acc : byte) (i : nat) : byte :=
  match n with
  | O => acc
  | S n' => gmul_aux n' (xtime a) b (if bit b i then bxor acc a else acc) (S i)
  end.

Definition gmul (a b : byte) : byte := gmul_aux 8 a b zero 0.

Definition gsq (a : byte) : byte := gmul a a.

(** [a^254]: the multiplicative inverse, with [0] sent to [0]. *)
Definition ginv (a : byte) : byte :=
  let a2 := gsq a in
  let a4 := gsq a2 in
  let a8 := gsq a4 in
  let a16 := gsq a8 in
  let a32 := gsq a16 in
  let a64 := gsq a32 in
  let a128 := gsq a64 in
  gmul a128 (gmul a64 (gmul a32 (gmul a16 (gmul a8 (gmul a4 a2))))).

Definition rotl1 (a : byte) : byte :=
  match a with
  | Ascii a0 a1 a2 a3 a4 a5 a6 a7 => Ascii a7 a0 a1 a2 a3 a4 a5 a6
  end.

(** The affine map of the S-box; ["c"] is the byte [0x63]. *)
Definition affine (b : byte) : byte :=
  let r1 := rotl1 b in
  let r2 := rotl1 r1 in
  let r3 := rotl1 r2 in
  let r4 := rotl1 r3 in
  bxor (bxor (bxor (bxor (bxor b r1) r2) r3) r4) "c"%char.

Definition all_bytes : list byte := map ascii_of_nat (seq 0 256).

End GF256.

(** ** The AES-256 block cipher (FIPS 197)

    [crypto.createCipheriv('aes-256-cbc', key, iv)] names this cipher; the
    state is kept as four columns of four bytes. *)

Module AES256.
Import GF256.

Definition sbox_table : list byte :=
  Eval vm_compute in map (fun a => affine (ginv a)) all_bytes.

Definition sbox (a : byte) : byte := nth (nat_of_ascii a) sbox_table zero.

Definition inv_sbox_table : list byte :=
  Eval vm_compute in
    map (fun y => match find (fun x => Ascii.eqb (sbox x) y) all_bytes with
                  | Some x => x
                  | None => zero
                  end) all_bytes.

Definition inv_sbox (a : byte) : byte := nth (nat_of_ascii a) inv_sbox_table zero.

Definition word : Type := byte * byte * byte * byte.
Definition block : Type := word * word * word * word.

Definition zero_word : word := (zero, zero, zero, zero).
Definition zero_block : block := (zero_word, zero_word, zero_word, zero_word).

Definition wxor (u v : word) : word :=
  let '(a, b, c, d) := u in
  let '(e, f, g, h) := v in
  (bxor a e, bxor b f, bxor c g, bxor d h).

Definition xor_block (s k : block) : block :=
  let '(c0, c1, c2, c3) := s in
  let '(k0, k1, k2, k3) := k in
  (wxor c0 k0, wxor c1 k1, wxor c2 k2, wxor c3 k3).

Definition wmap (f : byte -> byte) (u : word) : word :=
  let '(a, b, c, d) := u in (f a, f b, f c, f d).

Definition bmap (f : word -> word) (s : block) : block :=
  let '(c0, c1, c2, c3) := s in (f c0, f c1, f c2, f c3).

Definition SubBytes : block -> block := bmap (wmap sbox).
Definition InvSubBytes : block -> block := bmap (wmap inv_sbox).

(** Row [r] of the state is rotated left by [r] columns. *)
Definition ShiftRows (s : block) : block :=
  let '((a0, a1, a2, a3), (b0, b1, b2, b3), (c0, c1, c2, c3), (e0, e1, e2, e3)) := s in
  ((a0, b1, c2, e3), (b0, c1, e2, a3), (c0, e1, a2, b3), (e0, a1, b2, c3)).

Definition InvShiftRows (s : block) : block :=
  let '((a0, a1, a2, a3), (b0, b1, b2, b3), (c0, c1, c2, c3), (e0, e1, e2, e3)) := s in
  ((a0, e1, c2, b3), (b0, a1, e2, c3), (c0, b1, a2, e3), (e0, c1, b2, a3)).

Definition mul2 (a : byte) : byte := xtime a.
Definition mul3 (a : byte) : byte := bxor (xtime a) a.
Definition mul9 (a : byte) : byte := bxor (xtime (xtime (xtime a))) a.
Definition mul11 (a : byte) : byte :=
  bxor (bxor (xtime (xtime (xtime a))) (xtime a)) a.
Definition mul13 (a : byte) : byte :=
  bxor (bxor (xtime (xtime (xtime a))) (xtime (xtime a))) a.
Definition mul14 (a : byte) : byte :=
  bxor (bxor (xtime (xtime (xtime a))) (xtime (xtime a))) (xtime a).

Definition bxor4 (a b c d : byte) : byte := bxor (bxor (bxor a b) c) d.

Definition mix_word (u : word) : word :=
  let '(a, b, c, d) := u in
  (bxor4 (mul2 a) (mul3 b) c d,
   bxor4 a (mul2 b) (mul3 c) d,
   bxor4 a b (mul2 c) (mul3 d),
   bxor4 (mul3 a) b c (mul2 d)).

Definition inv_mix_word (u : word) : word :=
  let '(a, b, c, d) := u in
  (bxor4 (mul14 a) (mul11 b) (mul13 c) (mul9 d),
   bxor4 (mul9 a) (mul14 b) (mul11 c) (mul13 d),
   bxor4 (mul13 a) (mul9 b) (mul14 c) (mul11 d),
   bxor4 (mul11 a) (mul13 b) (mul9 c) (mul14 d)).

Definition MixColumns : block -> block := bmap mix_word.
Definition InvMixColumns : block -> block := bmap inv_mix_word.
Definition AddRoundKey (k s : block) : block := xor_block s k.

(** Key expansion for [Nk = 8]: eight words at a time. *)
Definition RotWord (u : word) : word := let '(a, b, c, d) := u in (b, c, d, a).
Definition SubWord : word -> word := wmap sbox.

Definition octet : Type := word * word * word * word * word * word * word * word.

Definition next_octet (rcon : byte) (o : octet) : octet :=
  let '(w0, w1, w2, w3, w4, w5, w6, w7) := o in
  let n0 := wxor w0 (wxor (SubWord (RotWord w7)) (rcon, zero, zero, zero)) in
  let n1 := wxor w1 n0 in
  let n2 := wxor w2 n1 in
  let n3 := wxor w3 n2 in
  let n4 := wxor w4 (SubWord n3) in
  let n5 := wxor w5 n4 in
  let n6 := wxor w6 n5 in
  let n7 := wxor w7 n6 in
  (n0, n1, n2, n3, n4, n5, n6, n7).

Definition round_keys_of (o : octet) : list block :=
  let '(w0, w1, w2, w3, w4, w5, w6, w7) := o in
  [(w0, w1, w2, w3); (w4, w5, w6, w7)].

Definition Rcon : list byte := map ascii_of_nat [1; 2; 4; 8; 16; 32; 64]%nat.

Fixpoint expand (rcons : list byte) (o : octet) : list block :=
  round_keys_of o ++
  match rcons with
  | [] => []
  | rc :: rest => expand rest (next_octet rc o)
  end.

(** [Nr = 14] rounds, hence fifteen round keys. *)
Definition KeyExpansion (key : octet) : list block := firstn 15 (expand Rcon key).

Definition round (k s : block) : block :=
  AddRoundKey k (MixColumns (ShiftRows (SubBytes s))).
Definition final_round (k s : block) : block :=
  AddRoundKey k (ShiftRows (SubBytes s)).
Definition inv_round (k s : block) : block :=
  InvSubBytes (InvShiftRows (InvMixColumns (AddRoundKey k s))).
Definition inv_final_round (k s : block) : block :=
  InvSubBytes (InvShiftRows (AddRoundKey k s)).

Definition encrypt_block (rks : list block) (s : block) : block :=
  match rks with
  | [] => s
  | k0 :: rest =>
      final_round (last rest zero_block)
        (fold_left (fun st k => round k st) (removelast rest) (AddRoundKey k0 s))
  end.

Definition decrypt_block (rks : list block) (s : block) : block :=
  match rks with
  | [] => s
  | k0 :: rest =>
      AddRoundKey k0
        (fold_right inv_round (inv_final_round (last rest zero_block) s) (removelast rest))
  end.

(** Sixteen bytes of a buffer as a block, column by column. *)
Definition bytes_of_word (u : word) : list byte :=
  let '(a, b, c, d) := u in [a; b; c; d].

Definition bytes_of_block (s : block) : list byte :=
  let '(c0, c1, c2, c3) := s in
  bytes_of_word c0 ++ bytes_of_word c1 ++ bytes_of_word c2 ++ bytes_of_word c3.

Definition word_at (l : list byte) (i : nat) : word :=
  (nth i l zero, nth (i + 1) l zero, nth (i + 2) l zero, nth (i + 3) l zero).

Definition key_of_bytes (l : list byte) : octet :=
  (word_at l 0, word_at l 4, word_at l 8, word_at l 12,
   word_at l 16, word_at l 20, word_at l 24, word_at l 28).

End AES256.

(** ** CBC mode, PKCS#7 padding and the hex encoding *)

Module CBC.
Import GF256 AES256.

(** A buffer cut into blocks of sixteen bytes; a shorter tail is dropped
    (the callers check the length first). *)
Fixpoint chunk (l : list byte) : list block :=
  match l with
  | x0 :: x1 :: x2 :: x3 :: x4 :: x5 :: x6 :: x7 ::
    x8 :: x9 :: x10 :: x11 :: x12 :: x13 :: x14 :: x15 :: rest =>
      ((x0, x1, x2, x3), (x4, x5, x6, x7), (x8, x9, x10, x11), (x12, x13, x14, x15))
      :: chunk rest
  | _ => []
  end.

Definition unchunk (bs : list block) : list byte := flat_map bytes_of_block bs.

Definition block_of_bytes (l : list byte) : block :=
  match chunk l with
  | b :: _ => b
  | [] => zero_block
  end.

Fixpoint cbc_encrypt (rks : list block) (prev : block) (ps : list block) : list block :=
  match ps with
  | [] => []
  | p :: rest =>
      let c := encrypt_block rks (xor_block p prev) in
      c :: cbc_encrypt rks c rest
  end.

Fixpoint cbc_decrypt (rks : list block) (prev : block) (cs : list block) : list block :=
  match cs with
  | [] => []
  | c :: rest => xor_block (decrypt_block rks c) prev :: cbc_decrypt rks c rest
  end.

(** PKCS#7: between one and sixteen bytes are appended, each holding the
    number of bytes appended. *)
Definition pad (l : list byte) : list byte :=
  let n := 16 - (length l mod 16) in
  l ++ repeat (ascii_of_nat n) n.

Definition unpad (l : list byte) : option (list byte) :=
  let n := nat_of_ascii (last l zero) in
  if (1 <=? n) && (n <=? 16) && (n <=? length l)
     && forallb (Ascii.eqb (ascii_of_nat n)) (skipn (length l - n) l)
  then Some (firstn (length l - n) l)
  else None.

(** [cipher.update(text) + cipher.final()] *)
Definition cipher (key iv text : list byte) : list byte :=
  unchunk (cbc_encrypt (KeyExpansion (key_of_bytes key)) (block_of_bytes iv)
             (chunk (pad text))).

(** [decipher.update(data) + decipher.final()]; [final] throws on a wrong
    final block length and on bad padding. *)
Definition decipher (key iv data : list byte) : option (list byte) :=
  if (length data =? 0) || negb (length data mod 16 =? 0) then None
  else unpad (unchunk (cbc_decrypt (KeyExpansion (key_of_bytes key)) (block_of_bytes iv)
                         (chunk data))).

End CBC.

Module Hex.
Import GF256.

Definition hex_digit (n : nat) : ascii :=
  nth n (list_ascii_of_string "0123456789abcdef") "0"%char.

Definition hex_of_byte (b : byte) : list ascii :=
  [hex_digit (nat_of_ascii b / 16); hex_digit (nat_of_ascii b mod 16)].

(** [buf.toString('hex')] *)
Definition hex_encode (l : list byte) : string :=
  string_of_list_ascii (flat_map hex_of_byte l).

Definition hex_value (c : ascii) : option nat :=
  let n := nat_of_ascii c in
  if (48 <=? n) && (n <=? 57) then Some (n - 48)
  else if (97 <=? n) && (n <=? 102) then Some (n - 87)
  else if (65 <=? n) && (n <=? 70) then Some (n - 55)
  else None.

(** [Buffer.from(s, 'hex')]: decoding stops, without an error, at the first
    pair that is not two hexadecimal digits. *)
Fixpoint hex_decode (s : string) : list byte :=
  match s with
  | String h (String l rest) =>
      match hex_value h, hex_value l with
      | Some a, Some b => ascii_of_nat (16 * a + b) :: hex_decode rest
      | _, _ => []
      end
  | _ => []
  end.

End Hex.

(** ** JSON text

    [JSON.stringify] without indentation and [JSON.parse].  The parser
    follows the JSON grammar (RFC 8259).  A number is kept exactly: an
    integer literal as [JNumber], a literal with a fraction or an exponent as
    [JDecimal m e], which stands for [m * 10^e]. *)

Module JSON.

#[local] Set Warnings "-register-all,-notation-for-abbreviation".

Inductive json : Type :=
| JNull
| JBool (b : bool)
| JNumber (z : Z)
| JDecimal (mantissa exponent : Z)
| JString (s : string)
| JArray (l : list json)
| JObject (fields : list (string * json)).

Definition chars : Type := list ascii.

(** The double quote, character 34. *)
Notation dquote := (Ascii false true false false false true false false).

Definition lit (s : string) : chars := list_ascii_of_string s.

(** *** Printing *)

Definition escape_char (c : ascii) : chars :=
  match nat_of_ascii c with
  | 34 => ["\"%char; dquote]
  | 92 => lit "\\"
  | 8 => lit "\b"
  | 12 => lit "\f"
  | 10 => lit "\n"
  | 13 => lit "\r"
  | 9 => lit "\t"
  | n => if n <? 32 then lit "\u00" ++ Hex.hex_of_byte c else [c]
  end.

Definition quote (s : string) : chars :=
  dquote :: flat_map escape_char (list_ascii_of_string s) ++ [dquote].

Fixpoint chars_of_uint (d : Decimal.uint) : chars :=
  match d with
  | Decimal.Nil => []
  | Decimal.D0 d => "0"%char :: chars_of_uint d
  | Decimal.D1 d => "1"%char :: chars_of_uint d
  | Decimal.D2 d => "2"%char :: chars_of_uint d
  | Decimal.D3 d => "3"%char :: chars_of_uint d
  | Decimal.D4 d => "4"%char :: chars_of_uint d
  | Decimal.D5 d => "5"%char :: chars_of_uint d
  | Decimal.D6 d => "6"%char :: chars_of_uint d
  | Decimal.D7 d => "7"%char :: chars_of_uint d
  | Decimal.D8 d => "8"%char :: chars_of_uint d
  | Decimal.D9 d => "9"%char :: chars_of_uint d
  end.

Definition print_Z (z : Z) : chars :=
  (if (z <? 0)%Z then ["-"%char] else []) ++ chars_of_uint (N.to_uint (Z.abs_N z)).

Fixpoint join (ls : list chars) : chars :=
  match ls with
  | [] => []
  | x :: rest =>
      match rest with
      | [] => x
      | _ :: _ => x ++ ","%char :: join rest
      end
  end.

Fixpoint print (v : json) : chars :=
  match v with
  | JNull => lit "null"
  | JBool true => lit "true"
  | JBool false => lit "false"
  | JNumber z => print_Z z
  | JDecimal m e => print_Z m ++ "e"%char :: print_Z e
  | JString s => quote s
  | JArray l => "["%char :: join (map print l) ++ ["]"%char]
  | JObject fields =>
      "{"%char
      :: join (map (fun kv => quote (fst kv) ++ ":"%char :: print (snd kv)) fields)
      ++ ["}"%char]
  end.

Definition stringify (v : json) : string := string_of_list_ascii (print v).

(** *** Parsing *)

Definition is_ws (c : ascii) : bool :=
  match nat_of_ascii c with
  | 32 | 9 | 10 | 13 => true
  | _ => false
  end.

Fixpoint skip_ws (s : chars) : chars :=
  match s with
  | c :: r => if is_ws c then skip_ws r else s
  | [] => []
  end.

Definition head_is (c : ascii) (s : chars) : bool :=
  match s with
  | x :: _ => Ascii.eqb x c
  | [] => false
  end.

Definition digit_of (c : ascii) : option (Decimal.uint -> Decimal.uint) :=
  match c with
  | "0"%char => Some Decimal.D0
  | "1"%char => Some Decimal.D1
  | "2"%char => Some Decimal.D2
  | "3"%char => Some Decimal.D3
  | "4"%char => Some Decimal.D4
  | "5"%char => Some Decimal.D5
  | "6"%char => Some Decimal.D6
  | "7"%char => Some Decimal.D7
  | "8"%char => Some Decimal.D8
  | "9"%char => Some Decimal.D9
  | _ => None
  end.

Fixpoint parse_digits (s : chars) : Decimal.uint * chars :=
  match s with
  | c :: r =>
      match digit_of c with
      | Some k => let (d, r') := parse_digits r in (k d, r')
      | None => (Decimal.Nil, s)
      end
  | [] => (Decimal.Nil, [])
  end.

(** The integer part of a JSON number: one digit at least, and no leading
    zero before another digit. *)
Definition plain_decimal (d : Decimal.uint) : bool :=
  match d with
  | Decimal.Nil => false
  | Decimal.D0 Decimal.Nil => true
  | Decimal.D0 _ => false
  | _ => true
  end.

Definition strip_sign (s : chars) : bool * chars :=
  match s with
  | c :: r => if Ascii.eqb c "-"%char then (true, r) else (false, s)
  | [] => (false, [])
  end.

Definition signed (negative : bool) (n : N) : Z :=
  if negative then (- Z.of_N n)%Z else Z.of_N n.

(** [frac = "." digit+]: [Some None] when there is no fraction, [None] when
    the point is not followed by a digit. *)
Definition parse_fraction (s : chars) : option (option Decimal.uint * chars) :=
  if head_is "."%char s then
    let (d, r) := parse_digits (tl s) in
    match d with
    | Decimal.Nil => None
    | _ => Some (Some d, r)
    end
  else Some (None, s).

(** [exp = ("e" | "E") ("-" | "+")? digit+] *)
Definition parse_exponent (s : chars) : option (option Z * chars) :=
  if head_is "e"%char s || head_is "E"%char s then
    let s1 := tl s in
    let (negative, s2) :=
      if head_is "+"%char s1 then (false, tl s1) else strip_sign s1 in
    let (d, r) := parse_digits s2 in
    match d with
    | Decimal.Nil => None
    | _ => Some (Some (signed negative (N.of_uint d)), r)
    end
  else Some (None, s).

Definition parse_number (s : chars) : option (json * chars) :=
  let (negative, s1) := strip_sign s in
  let (d, r) := parse_digits s1 in
  if plain_decimal d then
    match parse_fraction r with
    | Some (frac, r1) =>
        match parse_exponent r1 with
        | Some (exp, r2) =>
            match frac, exp with
            | None, None => Some (JNumber (signed negative (N.of_uint d)), r2)
            | _, _ =>
                let digits := match frac with Some f => Decimal.app d f | None => d end in
                let shift :=
                  match frac with
                  | Some f => Z.of_nat (Decimal.nb_digits f)
                  | None => 0%Z
                  end in
                let ex := match exp with Some x => x | None => 0%Z end in
                Some (JDecimal (signed negative (N.of_uint digits)) (ex - shift), r2)
            end
        | None => None
        end
    | None => None
    end
  else None.

Definition hex4 (h1 h2 h3 h4 : ascii) : option N :=
  match Hex.hex_value h1, Hex.hex_value h2, Hex.hex_value h3, Hex.hex_value h4 with
  | Some a, Some b, Some c, Some d =>
      Some (4096 * N.of_nat a + 256 * N.of_nat b + 16 * N.of_nat c + N.of_nat d)%N
  | _, _, _, _ => None
  end.

(** The UTF-8 bytes of a code unit below [0x10000]; a surrogate that stands
    alone is written in the same three-byte form. *)
Definition utf8_of_code (n : N) : chars :=
  if (n <? 128)%N then [ascii_of_N n]
  else if (n <? 2048)%N then [ascii_of_N (192 + n / 64); ascii_of_N (128 + n mod 64)]
  else [ascii_of_N (224 + n / 4096); ascii_of_N (128 + (n / 64) mod 64);
        ascii_of_N (128 + n mod 64)].

Definition is_high_surrogate (n : N) : bool := (n / 1024 =? 54)%N.
Definition is_low_surrogate (n : N) : bool := (n / 1024 =? 55)%N.

(** The four UTF-8 bytes of the code point written by a surrogate pair. *)
Definition utf8_of_pair (hi lo : N) : chars :=
  let n := (65536 + 1024 * (hi mod 1024) + lo mod 1024)%N in
  [ascii_of_N (240 + n / 262144); ascii_of_N (128 + (n / 4096) mod 64);
   ascii_of_N (128 + (n / 64) mod 64); ascii_of_N (128 + n mod 64)].

(** The low half of a pair, when the text goes on with its escape. *)
Definition low_surrogate_escape (s : chars) : option N :=
  match s with
  | "\"%char :: "u"%char :: l1 :: l2 :: l3 :: l4 :: _ =>
      match hex4 l1 l2 l3 l4 with
      | Some m => if is_low_surrogate m then Some m else None
      | None => None
      end
  | _ => None
  end.

Definition prepend (cs : chars) (r : option (chars * chars)) : option (chars * chars) :=
  match r with
  | Some (l, rest) => Some (cs ++ l, rest)
  | None => None
  end.

(** The characters of a string literal, after its opening quote. *)
Fixpoint parse_chars (s : chars) : option (chars * chars) :=
  match s with
  | [] => None
  | c :: r =>
      if Ascii.eqb c dquote then Some ([], r)
      else if Ascii.eqb c "\"%char then
        match r with
        | dquote :: r' => prepend [dquote] (parse_chars r')
        | "\"%char :: r' => prepend ["\"%char] (parse_chars r')
        | "/"%char :: r' => prepend ["/"%char] (parse_chars r')
        | "b"%char :: r' => prepend [ascii_of_nat 8] (parse_chars r')
        | "f"%char :: r' => prepend [ascii_of_nat 12] (parse_chars r')
        | "n"%char :: r' => prepend [ascii_of_nat 10] (parse_chars r')
        | "r"%char :: r' => prepend [ascii_of_nat 13] (parse_chars r')
        | "t"%char :: r' => prepend [ascii_of_nat 9] (parse_chars r')
        | "u"%char :: h1 :: h2 :: h3 :: h4 :: r' =>
            match hex4 h1 h2 h3 h4 with
            | Some n =>
                match (if is_high_surrogate n then low_surrogate_escape r' else None), r' with
                | Some m, _ :: _ :: _ :: _ :: _ :: _ :: r'' =>
                    prepend (utf8_of_pair n m) (parse_chars r'')
                | _, _ => prepend (utf8_of_code n) (parse_chars r')
                end
            | None => None
            end
        | _ => None
        end
      else if nat_of_ascii c <? 32 then None
      else prepend [c] (parse_chars r)
  end.

Definition parse_string (s : chars) : option (string * chars) :=
  match parse_chars s with
  | Some (l, rest) => Some (string_of_list_ascii l, rest)
  | None => None
  end.

(** [keyword w v s]: the rest of [s] after the word [w], with the value [v]. *)
Fixpoint keyword (w : chars) (v : json) (s : chars) : option (json * chars) :=
  match w with
  | [] => Some (v, s)
  | c :: w' =>
      match s with
      | x :: r => if Ascii.eqb x c then keyword w' v r else None
      | [] => None
      end
  end.

Fixpoint parse_value (fuel : nat) (s : chars) {struct fuel} : option (json * chars) :=
  match fuel with
  | O => None
  | S fuel' =>
      let s0 := skip_ws s in
      if head_is "n"%char s0 then keyword (lit "null") JNull s0
      else if head_is "t"%char s0 then keyword (lit "true") (JBool true) s0
      else if head_is "f"%char s0 then keyword (lit "false") (JBool false) s0
      else if head_is dquote s0 then
        match parse_string (tl s0) with
        | Some (str, r) => Some (JString str, r)
        | None => None
        end
      else if head_is "["%char s0 then
        if head_is "]"%char (skip_ws (tl s0)) then Some (JArray [], tl (skip_ws (tl s0)))
        else
          match parse_elements fuel' (tl s0) with
          | Some (vs, r) => Some (JArray vs, r)
          | None => None
          end
      else if head_is "{"%char s0 then
        if head_is "}"%char (skip_ws (tl s0)) then Some (JObject [], tl (skip_ws (tl s0)))
        else
          match parse_members fuel' (tl s0) with
          | Some (ms, r) => Some (JObject ms, r)
          | None => None
          end
      else parse_number s0
  end

with parse_elements (fuel : nat) (s : chars) {struct fuel} : option (list json * chars) :=
  match fuel with
  | O => None
  | S fuel' =>
      match parse_value fuel' s with
      | Some (v, r) =>
          let r0 := skip_ws r in
          if head_is ","%char r0 then
            match parse_elements fuel' (tl r0) with
            | Some (vs, r') => Some (v :: vs, r')
            | None => None
            end
          else if head_is "]"%char r0 then Some ([v], tl r0)
          else None
      | None => None
      end
  end

with parse_members (fuel : nat) (s : chars) {struct fuel}
  : option (list (string * json) * chars) :=
  match fuel with
  | O => None
  | S fuel' =>
      let s0 := skip_ws s in
      if head_is dquote s0 then
        match parse_string (tl s0) with
        | Some (k, r1) =>
            let r2 := skip_ws r1 in
            if head_is ":"%char r2 then
              match parse_value fuel' (tl r2) with
              | Some (v, r3) =>
                  let r4 := skip_ws r3 in
                  if head_is ","%char r4 then
                    match parse_members fuel' (tl r4) with
                    | Some (ms, r5) => Some ((k, v) :: ms, r5)
                    | None => None
                    end
                  else if head_is "}"%char r4 then Some ([(k, v)], tl r4)
                  else None
              | None => None
              end
            else None
        | None => None
        end
      else None
  end.

(** [JSON.parse(text)]; [None] stands for the [SyntaxError]. *)
Definition parse (text : string) : option json :=
  let s := list_ascii_of_string text in
  match parse_value (S (length s)) s with
  | Some (v, rest) =>
      match skip_ws rest with
      | [] => Some v
      | _ :: _ => None
      end
  | None => None
  end.

(** Property access on a parsed value: the last of several equal keys wins. *)
Fixpoint get (k : string) (fields : list (string * json)) : option json :=
  match fields with
  | [] => None
  | (k', v) :: rest =>
      match get k rest with
      | Some v' => Some v'
      | None => if String.eqb k k' then Some v else None
      end
  end.

(** *** Notions used to state that parsing inverts printing *)

(** What may follow a printed value: the end of the text, or one of
    [,], []] and [}]. *)
Definition terminated (rest : chars) : bool :=
  match rest with
  | [] => true
  | c :: _ => (Ascii.eqb c ","%char || Ascii.eqb c "]"%char || Ascii.eqb c "}"%char)%bool
  end.

(** A printed number starts with a digit or a minus sign. *)
Definition number_start (c : ascii) : bool :=
  match digit_of c with
  | Some _ => true
  | None => Ascii.eqb c "-"%char
  end.

Definition value_start (c : ascii) : bool :=
  (number_start c || Ascii.eqb c "n"%char || Ascii.eqb c "t"%char || Ascii.eqb c "f"%char
   || Ascii.eqb c dquote || Ascii.eqb c "["%char || Ascii.eqb c "{"%char)%bool.

(** The text of one member of an object. *)
Definition member_text (kv : string * json) : chars :=
  quote (fst kv) ++ ":"%char :: print (snd kv).

(** [v] is read back from its text, before any delimiter and with any fuel
    that covers the text. *)
Definition value_ok (v : json) : Prop :=
  forall fuel rest,
    length (print v) <= fuel -> terminated rest = true ->
    parse_value fuel (print v ++ rest) = Some (v, rest).

End JSON.

(** ** The license handler *)

Module License.
Import GF256 JSON.

(** *** Data ([interface LicenseInfo], [interface StoredLicense]) *)

Record LicenseInfo : Type := {
  license_key : string;
  customer_name : string;
  customer_email : string;
  plan_price : Z;
  plan_type : string;
  features : list string;
  expires_at : string;
  days_remaining : Z;
  activated_at : option string
}.

Record StoredLicense : Type := {
  key : string;
  hardwareId : string;
  licenseInfo : LicenseInfo;
  lastVerified : string;
  activatedAt : string
}.

(** *** The runtime taken as given

    The hash behind the hardware fingerprint, the key derivation, and the
    reading and printing of dates by [Date]; [Date_parse] gives the
    milliseconds since the epoch, [None] for an invalid date ([NaN]). *)

Record Platform : Type := {
  sha256_hex : string -> string;
  scryptSync : string -> string -> nat -> list byte;
  Date_parse : string -> option Z;
  toISOString : Z -> string
}.

(** What [os] and [app] report about the machine. *)

Record NetworkInterfaceInfo : Type := {
  internal : bool;
  mac : string
}.

Record Host : Type := {
  cpus : list string;
  hostname : string;
  networkInterfaces : list (string * list NetworkInterfaceInfo);
  os_type : string;
  os_release : string;
  APP_VERSION : string
}.

(** *** The license server, as [axios.post] sees it *)

Inductive Request : Type :=
| ActivateRequest (license_key hardware_id device_name os_info app_version : string)
| VerifyRequest (license_key hardware_id app_version : string)
| DeactivateRequest (license_key hardware_id : string).

(** [response.data] of a reply with a 2xx status. *)
Inductive ResponseBody : Type :=
| BodySuccess (data : LicenseInfo)
| BodyFailure (message : option string).

(** [error.response] of a reply with another status. *)
Record ErrorResponse : Type := {
  status : Z;
  code : option string;
  error_message : option string
}.

(** The promise of [axios.post] resolves with a body or rejects with an
    error, whose [response] is undefined when no reply arrived (timeout,
    DNS, refused connection). *)
Inductive AxiosResult : Type :=
| Resolved (body : ResponseBody)
| Rejected (response : option ErrorResponse).

Record Env : Type := {
  host : Host;
  respond : Request -> AxiosResult;
  latency : Request -> Z
}.

(** *** The state: the handler's field, the license file, the clock and the
    requests posted so far *)

Record World : Type := {
  storedLicense : option StoredLicense;
  licenseFile : option string;
  now : Z;
  sent : list Request
}.

Definition set_storedLicense (l : option StoredLicense) (w : World) : World :=
  {| storedLicense := l; licenseFile := licenseFile w; now := now w; sent := sent w |}.

Definition set_licenseFile (f : option string) (w : World) : World :=
  {| storedLicense := storedLicense w; licenseFile := f; now := now w; sent := sent w |}.

Definition advance (dt : Z) (w : World) : World :=
  {| storedLicense := storedLicense w; licenseFile := licenseFile w;
     now := (now w + dt)%Z; sent := sent w |}.

Definition axios_post (e : Env) (req : Request) (w : World) : AxiosResult * World :=
  (respond e req,
   {| storedLicense := storedLicense w; licenseFile := licenseFile w;
      now := (now w + latency e req)%Z; sent := sent w ++ [req] |}).

(** *** Results *)

(** [{ valid, message, info? }]; [activateLicense] names the third field
    [data]. *)
Record CheckResult : Type := {
  valid : bool;
  message : string;
  info : option LicenseInfo
}.

(** [{ success, message }]; the message field is named [notice] here. *)
Record DeactivateResult : Type := {
  success : bool;
  notice : string
}.

Definition invalid (msg : string) : CheckResult :=
  {| valid := false; message := msg; info := None |}.

(** [m || d] on a message that may be undefined or empty. *)
Definition or_default (m : option string) (d : string) : string :=
  match m with
  | Some s => if (s =? "")%string then d else s
  | None => d
  end.

(** *** The record as JSON *)

Definition json_of_LicenseInfo (i : LicenseInfo) : json :=
  JObject
    ([("license_key", JString (license_key i));
      ("customer_name", JString (customer_name i));
      ("customer_email", JString (customer_email i));
      ("plan_price", JNumber (plan_price i));
      ("plan_type", JString (plan_type i));
      ("features", JArray (map JString (features i)));
      ("expires_at", JString (expires_at i));
      ("days_remaining", JNumber (days_remaining i))]
     ++ match activated_at i with
        | Some a => [("activated_at", JString a)]
        | None => []
        end).

Definition json_of_StoredLicense (l : StoredLicense) : json :=
  JObject
    [("key", JString (key l));
     ("hardwareId", JString (hardwareId l));
     ("licenseInfo", json_of_LicenseInfo (licenseInfo l));
     ("lastVerified", JString (lastVerified l));
     ("activatedAt", JString (activatedAt l))].

Definition get_string (k : string) (fs : list (string * json)) : option string :=
  match get k fs with
  | Some (JString s) => Some s
  | _ => None
  end.

(** The integer a number stands for; a number that is not an integer has no
    image in the typed model. *)
Definition integer_of (m e : Z) : option Z :=
  if (0 <=? e)%Z then Some (m * 10 ^ e)%Z
  else if (m mod 10 ^ (- e) =? 0)%Z then Some (m / 10 ^ (- e))%Z
  else None.

Definition get_number (k : string) (fs : list (string * json)) : option Z :=
  match get k fs with
  | Some (JNumber z) => Some z
  | Some (JDecimal m e) => integer_of m e
  | _ => None
  end.

Fixpoint strings_of (l : list json) : option (list string) :=
  match l with
  | [] => Some []
  | JString s :: rest =>
      match strings_of rest with
      | Some ss => Some (s :: ss)
      | None => None
      end
  | _ :: _ => None
  end.

Definition get_strings (k : string) (fs : list (string * json)) : option (list string) :=
  match get k fs with
  | Some (JArray l) => strings_of l
  | _ => None
  end.

Definition get_optional_string (k : string) (fs : list (string * json))
  : option (option string) :=
  match get k fs with
  | None => Some None
  | Some (JString s) => Some (Some s)
  | Some _ => None
  end.

(** The cast of a parsed value to [LicenseInfo]: a value of another shape
    has no image in the typed model. *)
Definition LicenseInfo_of_json (v : json) : option LicenseInfo :=
  match v with
  | JObject fs =>
      match get_string "license_key" fs, get_string "customer_name" fs,
            get_string "customer_email" fs, get_number "plan_price" fs,
            get_string "plan_type" fs, get_strings "features" fs,
            get_string "expires_at" fs, get_number "days_remaining" fs,
            get_optional_string "activated_at" fs with
      | Some lk, Some cn, Some ce, Some pp, Some pt, Some fe, Some ex, Some dr, Some aa =>
          Some {| license_key := lk; customer_name := cn; customer_email := ce;
                  plan_price := pp; plan_type := pt; features := fe;
                  expires_at := ex; days_remaining := dr; activated_at := aa |}
      | _, _, _, _, _, _, _, _, _ => None
      end
  | _ => None
  end.

Definition StoredLicense_of_json (v : json) : option StoredLicense :=
  match v with
  | JObject fs =>
      match get_string "key" fs, get_string "hardwareId" fs, get "licenseInfo" fs,
            get_string "lastVerified" fs, get_string "activatedAt" fs with
      | Some k, Some h, Some iv, Some lv, Some aa =>
          match LicenseInfo_of_json iv with
          | Some i =>
              Some {| key := k; hardwareId := h; licenseInfo := i;
                      lastVerified := lv; activatedAt := aa |}
          | None => None
          end
      | _, _, _, _, _ => None
      end
  | _ => None
  end.

(** [JSON.stringify(this.storedLicense)] *)
Definition JSON_stringify (l : StoredLicense) : string :=
  stringify (json_of_StoredLicense l).

(** [JSON.parse(decrypted)] read as a [StoredLicense]; [None] for a syntax
    error, for [null] and for a value of another shape. *)
Definition JSON_parse (text : string) : option StoredLicense :=
  match parse text with
  | Some v => StoredLicense_of_json v
  | None => None
  end.

(** *** Dates and numbers *)

(** [a < b] on two [Date]s: false as soon as one is invalid. *)
Definition date_lt (a b : option Z) : bool :=
  match a, b with
  | Some x, Some y => (x <? y)%Z
  | _, _ => false
  end.

(** [(now - lastVerified.getTime()) / (1000 * 60 * 60)]; [None] is [NaN].
    The quotient is taken exactly: both times are whole milliseconds, so the
    rounded quotient of the source is below [72] exactly when this one is. *)
Definition hours_since (lastVerified : option Z) (now : Z) : option Q :=
  match lastVerified with
  | Some t => Some (inject_Z (now - t) / inject_Z (1000 * 60 * 60))%Q
  | None => None
  end.

(** [h < bound] on numbers: false on [NaN]. *)
Definition number_lt (h : option Q) (bound : Q) : bool :=
  match h with
  | Some q => negb (Qle_bool bound q)
  | None => false
  end.

Section Handler.

Variable P : Platform.

(** *** [getHardwareId] *)

Definition usable (net : NetworkInterfaceInfo) : bool :=
  negb (internal net) && negb (mac net =? "00:00:00:00:00:00")%string.

(** The inner loop stops at the first usable address; the outer loop stops
    as soon as [mac] is a non-empty string. *)
Fixpoint scan_interfaces (found : string) (ifs : list (string * list NetworkInterfaceInfo))
  : string :=
  match ifs with
  | [] => found
  | (_, nets) :: rest =>
      let found' :=
        match find usable nets with
        | Some net => mac net
        | None => found
        end in
      if (found' =? "")%string then scan_interfaces found' rest else found'
  end.

Definition getHardwareId (h : Host) : string :=
  let cpuModel := hd "" (cpus h) in
  let mac := scan_interfaces "" (networkInterfaces h) in
  let combined := (cpuModel ++ "-" ++ hostname h ++ "-" ++ mac)%string in
  sha256_hex P combined.

(** *** [encrypt], [decrypt] *)

Definition encrypt (text : string) : string :=
  let key := scryptSync P "license-encryption-key" "salt" 32 in
  let iv := repeat zero 16 in
  Hex.hex_encode (CBC.cipher key iv (list_ascii_of_string text)).

(** [decipher.update] refuses a hex string of odd length. *)
Definition decrypt (encrypted : string) : option string :=
  let key := scryptSync P "license-encryption-key" "salt" 32 in
  let iv := repeat zero 16 in
  if Nat.odd (String.length encrypted) then None
  else
    match CBC.decipher key iv (Hex.hex_decode encrypted) with
    | Some bytes => Some (string_of_list_ascii bytes)
    | None => None
    end.

(** *** [saveStoredLicense], [loadStoredLicense], the constructor *)

Definition saveStoredLicense (w : World) : World :=
  match storedLicense w with
  | None => w
  | Some lic => set_licenseFile (Some (encrypt (JSON_stringify lic))) w
  end.

Definition loadStoredLicense (w : World) : World :=
  match licenseFile w with
  | Some encrypted =>
      match decrypt encrypted with
      | Some decrypted =>
          match JSON_parse decrypted with
          | Some lic => set_storedLicense (Some lic) w
          | None => set_storedLicense None w
          end
      | None => set_storedLicense None w
      end
  | None => w
  end.

(** [new LicenseHandler()] on a disk whose license file holds [file], at
    time [t]. *)
Definition LicenseHandler_new (file : option string) (t : Z) : World :=
  loadStoredLicense {| storedLicense := None; licenseFile := file; now := t; sent := [] |}.

(** *** [deactivateLicense] *)

Definition deactivateLicense (e : Env) (w : World) : DeactivateResult * World :=
  match storedLicense w with
  | None => ({| success := false; notice := "No license found" |}, w)
  | Some lic =>
      let (_, w1) := axios_post e (DeactivateRequest (key lic) (getHardwareId (host e))) w in
      ({| success := true; notice := "License deactivated" |},
       set_licenseFile None (set_storedLicense None w1))
  end.

(** *** [activateLicense] *)

Definition activateLicense (e : Env) (licenseKey : string) (w : World)
  : CheckResult * World :=
  let hardwareId := getHardwareId (host e) in
  let (res, w1) :=
    axios_post e
      (ActivateRequest licenseKey hardwareId (hostname (host e))
         (os_type (host e) ++ " " ++ os_release (host e))%string (APP_VERSION (host e))) w in
  match res with
  | Resolved (BodySuccess data) =>
      let lic := {| key := licenseKey; hardwareId := hardwareId; licenseInfo := data;
                    lastVerified := toISOString P (now w1);
                    activatedAt := toISOString P (now w1) |} in
      ({| valid := true; message := "License activated successfully"; info := Some data |},
       saveStoredLicense (set_storedLicense (Some lic) w1))
  | Resolved (BodyFailure msg) => (invalid (or_default msg "Activation failed"), w1)
  | Rejected (Some r) => (invalid (or_default (error_message r) "Activation failed"), w1)
  | Rejected None =>
      (invalid "Unable to connect to license server. Please check your internet connection.",
       w1)
  end.

(** *** [verifyLicense] *)

Definition is_invalid_404 (response : option ErrorResponse) : bool :=
  match response with
  | Some r =>
      (status r =? 404)%Z
      && match code r with
         | Some c => (c =? "INVALID")%string
         | None => false
         end
  | None => false
  end.

Definition response_message (response : option ErrorResponse) : option string :=
  match response with
  | Some r => error_message r
  | None => None
  end.

Definition verifyLicense (silent : bool) (e : Env) (w : World) : CheckResult * World :=
  match storedLicense w with
  | None => (invalid "No license found", w)
  | Some lic =>
      let currentHardwareId := getHardwareId (host e) in
      if negb (hardwareId lic =? currentHardwareId)%string then
        (invalid "License is bound to different hardware", w)
      else if date_lt (Date_parse P (expires_at (licenseInfo lic))) (Some (now w)) then
        (invalid "License has expired", w)
      else
        let (res, w1) :=
          axios_post e (VerifyRequest (key lic) currentHardwareId (APP_VERSION (host e))) w in
        match res with
        | Resolved (BodySuccess data) =>
            let lic' := {| key := key lic; hardwareId := hardwareId lic;
                           licenseInfo := data;
                           lastVerified := toISOString P (now w1);
                           activatedAt := activatedAt lic |} in
            ({| valid := true; message := "License is valid"; info := Some data |},
             saveStoredLicense (set_storedLicense (Some lic') w1))
        | Resolved (BodyFailure msg) =>
            let w2 := if silent then w1 else snd (deactivateLicense e w1) in
            (invalid (or_default msg "License verification failed"), w2)
        | Rejected response =>
            if is_invalid_404 response then
              (invalid (or_default (response_message response) "Invalid license"), w1)
            else
              let hoursSinceVerification :=
                hours_since (Date_parse P (lastVerified lic)) (now w1) in
              if number_lt hoursSinceVerification 72 then
                ({| valid := true; message := "License valid (offline mode)";
                    info := Some (licenseInfo lic) |}, w1)
              else
                (invalid "Unable to verify license. Please connect to the internet.", w1)
        end
  end.

(** *** [hasFeature], [needsRenewal] *)

Definition hasFeature (feature : string) (w : World) : bool :=
  match storedLicense w with
  | Some lic => existsb (String.eqb feature) (features (licenseInfo lic))
  | None => false
  end.

(** [daysThreshold] is [None] when the caller leaves it out. *)
Definition needsRenewal (daysThreshold : option Z) (w : World) : bool :=
  let daysThreshold := match daysThreshold with Some d => d | None => 30%Z end in
  match storedLicense w with
  | None => false
  | Some lic => (days_remaining (licenseInfo lic) <=? daysThreshold)%Z
  end.

(** *** The life of a handler

    After construction the application calls the three methods, the timer of
    [startPeriodicVerification] calls [verifyLicense(true)], and time
    passes. *)

Inductive step (w : World) : World -> Prop :=
| step_activate (e : Env) (licenseKey : string) :
    step w (snd (activateLicense e licenseKey w))
| step_verify (silent : bool) (e : Env) :
    step w (snd (verifyLicense silent e w))
| step_deactivate (e : Env) :
    step w (snd (deactivateLicense e w))
| step_wait (dt : Z) :
    step w (advance dt w).

Inductive reachable : World -> Prop :=
| reachable_new (file : option string) (t : Z) : reachable (LicenseHandler_new file t)
| reachable_step (w w' : World) : reachable w -> step w w' -> reachable w'.

(** A license file that is missing, on which [decrypt] throws, or on whose
    text [JSON.parse] throws. *)
Inductive unreadable : option string -> Prop :=
| unreadable_missing : unreadable None
| unreadable_undecryptable (c : string) :
    decrypt c = None -> unreadable (Some c)
| unreadable_unparsable (c d : string) :
    decrypt c = Some d -> parse d = None -> unreadable (Some c).

(** What a fresh handler would load from the license file. *)
Definition persisted (w : World) : option StoredLicense :=
  storedLicense (LicenseHandler_new (licenseFile w) (now w)).

(** The license in memory is the one a fresh handler would load from the
    file. *)
Definition coherent (w : World) : Prop := storedLicense w = persisted w.

End Handler.

End License.

(** ** A concrete installation for the examples

    The digest, the key derivation and the date format of [demo_platform]
    are stand-ins: a date is written as its number of milliseconds. *)

Module Demo.
Import License.

Definition demo_platform : Platform := {|
  sha256_hex := fun s => ("sha256:" ++ s)%string;
  scryptSync := fun password salt keylen =>
    firstn keylen (list_ascii_of_string (password ++ salt)%string);
  Date_parse := fun s =>
    match JSON.parse_number (list_ascii_of_string s) with
    | Some (JSON.JNumber z, []) => Some z
    | _ => None
    end;
  toISOString := fun t => string_of_list_ascii (JSON.print_Z t)
|}.

Definition demo_host : Host := {|
  cpus := ["Intel(R) Core(TM) i5"];
  hostname := "till-1";
  networkInterfaces :=
    [("lo", [{| internal := true; mac := "00:00:00:00:00:00" |}]);
     ("eth0", [{| internal := false; mac := "aa:bb:cc:dd:ee:ff" |}])];
  os_type := "Linux";
  os_release := "6.1";
  APP_VERSION := "1.0.0"
|}.

Definition other_host : Host := {|
  cpus := ["Intel(R) Core(TM) i5"];
  hostname := "till-2";
  networkInterfaces := [];
  os_type := "Linux";
  os_release := "6.1";
  APP_VERSION := "1.0.0"
|}.

Definition hour : Z := 3600000.

(** A license with the feature [export] that expires after 720 hours. *)
Definition demo_info : LicenseInfo := {|
  license_key := "ABC-123";
  customer_name := "Cafe Aroma";
  customer_email := "owner@example.com";
  plan_price := 49;
  plan_type := "yearly";
  features := ["export"; "reports"];
  expires_at := "2592000000";
  days_remaining := 30;
  activated_at := None
|}.

(** Activated and last verified at time [0] on [demo_host]. *)
Definition demo_license : StoredLicense := {|
  key := "ABC-123";
  hardwareId := getHardwareId demo_platform demo_host;
  licenseInfo := demo_info;
  lastVerified := "0";
  activatedAt := "0"
|}.

Definition offline : Request -> AxiosResult := fun _ => Rejected None.

Definition accepting : Request -> AxiosResult := fun _ => Resolved (BodySuccess demo_info).

Definition rejecting : Request -> AxiosResult :=
  fun _ => Resolved (BodyFailure (Some "License revoked")).

Definition unknown_key : Request -> AxiosResult :=
  fun _ => Rejected (Some {| status := 404; code := Some "INVALID";
                             error_message := Some "License key is invalid" |}).

Definition demo_env (h : Host) (server : Request -> AxiosResult) : Env :=
  {| host := h; respond := server; latency := fun _ => 0%Z |}.

(** The handler holding [lic] at time [t], with the license saved on disk. *)
Definition world_with (lic : StoredLicense) (t : Z) : World :=
  saveStoredLicense demo_platform
    {| storedLicense := Some lic; licenseFile := None; now := t; sent := [] |}.

Definition verify_request : Request :=
  VerifyRequest "ABC-123" (getHardwareId demo_platform demo_host) "1.0.0".

End Demo.

(** ** The rest of the handler and its callers in the main process *)

Module Application.
Import License.

(** *** Notions used in the statements *)

(** One of the characters [0-9a-f]. *)
Definition lower_hex (c : ascii) : bool :=
  existsb (Ascii.eqb c) (list_ascii_of_string "0123456789abcdef").

(** A byte from the space on: not a control character. *)
Definition printable (c : ascii) : bool := 32 <=? nat_of_ascii c.


(** *** [getDeviceInfo] *)

Record DeviceInfo : Type := {
  device_name : string;
  os_info : string;
  app_version : string
}.

Definition getDeviceInfo (h : Host) : DeviceInfo :=
  {| device_name := hostname h;
     os_info := (os_type h ++ " " ++ os_release h)%string;
     app_version := APP_VERSION h |}.

(** *** [getLicenseInfo]

    [{ ...licenseInfo, lastVerified, activatedAt }]: the cached data with the
    two time stamps of the record beside it. *)

Record LicenseView : Type := {
  shown : LicenseInfo;
  shown_lastVerified : string;
  shown_activatedAt : string
}.

Definition getLicenseInfo (w : World) : option LicenseView :=
  match storedLicense w with
  | None => None
  | Some lic =>
      Some {| shown := licenseInfo lic;
              shown_lastVerified := lastVerified lic;
              shown_activatedAt := activatedAt lic |}
  end.

Section Shell.

Variable P : Platform.

(** The body of the request of [activateLicense]:
    [{ license_key, hardware_id, ...deviceInfo }]. *)
Definition activation_request (e : Env) (licenseKey : string) : Request :=
  let deviceInfo := getDeviceInfo (host e) in
  ActivateRequest licenseKey (getHardwareId P (host e))
    (device_name deviceInfo) (os_info deviceInfo) (app_version deviceInfo).

(** The body of the request of [verifyLicense]. *)
Definition verification_request (e : Env) (lic : StoredLicense) : Request :=
  VerifyRequest (key lic) (getHardwareId P (host e)) (APP_VERSION (host e)).

(** The same machine with a server that cannot be reached. *)
Definition unreachable (e : Env) : Env :=
  {| host := host e; respond := fun _ => Rejected None; latency := latency e |}.

(** *** The callback of [startPeriodicVerification]: the result of
    [verifyLicense(true)] is dropped. *)
Definition periodic_verification (e : Env) (w : World) : World :=
  snd (verifyLicense P true e w).

(** *** The callers in the main process

    [app.whenReady] and the [validate-license] handler call [verifyLicense()]
    with the default [silent = false]; the [deactivate-license] handler awaits
    [deactivateLicense()] and answers [{ success: true }]. *)

Definition startup_check (e : Env) (w : World) : CheckResult * World :=
  verifyLicense P false e w.

Definition ipc_validate_license (e : Env) (w : World) : CheckResult * World :=
  verifyLicense P false e w.

Definition ipc_deactivate_license (e : Env) (w : World) : bool * World :=
  (true, snd (deactivateLicense P e w)).

End Shell.

End Application.

(** ** More servers for the examples *)

Module Scenarios.
Import License Demo.

Definition server_error : Request -> AxiosResult :=
  fun _ => Rejected (Some {| status := 500; code := None;
                             error_message := Some "Internal Server Error" |}).

Definition refusing : Request -> AxiosResult :=
  fun _ => Resolved (BodyFailure None).

(** A renewed license: more days, another feature list. *)
Definition renewed_info : LicenseInfo := {|
  license_key := "ABC-123";
  customer_name := "Cafe Aroma";
  customer_email := "owner@example.com";
  plan_price := 49;
  plan_type := "yearly";
  features := ["export"; "reports"; "kiosk"];
  expires_at := "34128000000";
  days_remaining := 395;
  activated_at := None
|}.

Definition renewing : Request -> AxiosResult :=
  fun _ => Resolved (BodySuccess renewed_info).

(** A record whose [lastVerified] is not a date, and one whose [expires_at]
    is not a date. *)
Definition undated_license : StoredLicense := {|
  key := "ABC-123";
  hardwareId := getHardwareId demo_platform demo_host;
  licenseInfo := demo_info;
  lastVerified := "yesterday";
  activatedAt := "0"
|}.

Definition open_ended_license : StoredLicense := {|
  key := "ABC-123";
  hardwareId := getHardwareId demo_platform demo_host;
  licenseInfo := {|
    license_key := "ABC-123";
    customer_name := "Cafe Aroma";
    customer_email := "owner@example.com";
    plan_price := 49;
    plan_type := "lifetime";
    features := ["export"];
    expires_at := "never";
    days_remaining := 36500;
    activated_at := Some "0"
  |};
  lastVerified := "0";
  activatedAt := "0"
|}.


End Scenarios.

(* ================================================================== *)
(** * Part II. Properties                                              *)
(* ================================================================== *)

(** ** The cipher is invertible *)

Module AES256Facts.
Import GF256 AES256.

Lemma inv_sbox_sbox (a : byte) : inv_sbox (sbox a) = a.
Proof. destruct a as [[] [] [] [] [] [] [] []]; vm_compute; reflexivity. Qed.

Lemma bxor_involutive (a k : byte) : bxor (bxor a k) k = a.
Proof.
  destruct a, k; cbv [bxor]; f_equal; btauto.
Qed.

Lemma wxor_involutive (u k : word) : wxor (wxor u k) k = u.
Proof.
  destruct u as [[[a b] c] d], k as [[[e f] g] h]; cbv [wxor].
  now rewrite !bxor_involutive.
Qed.

Lemma xor_block_involutive (s k : block) : xor_block (xor_block s k) k = s.
Proof.
  destruct s as [[[a b] c] d], k as [[[e f] g] h]; cbv [xor_block].
  now rewrite !wxor_involutive.
Qed.

Lemma AddRoundKey_involutive (k s : block) : AddRoundKey k (AddRoundKey k s) = s.
Proof. apply xor_block_involutive. Qed.

Lemma InvSubBytes_SubBytes (s : block) : InvSubBytes (SubBytes s) = s.
Proof.
  destruct s as [[[[[[a0 a1] a2] a3] [[[b0 b1] b2] b3]] [[[c0 c1] c2] c3]] [[[e0 e1] e2] e3]].
  cbv [InvSubBytes SubBytes bmap wmap].
  now rewrite !inv_sbox_sbox.
Qed.

Lemma InvShiftRows_ShiftRows (s : block) : InvShiftRows (ShiftRows s) = s.
Proof.
  destruct s as [[[[[[a0 a1] a2] a3] [[[b0 b1] b2] b3]] [[[c0 c1] c2] c3]] [[[e0 e1] e2] e3]].
  reflexivity.
Qed.

Lemma inv_mix_word_mix_word (u : word) : inv_mix_word (mix_word u) = u.
Proof.
  destruct u as [[[a b] c] d].
  destruct a as [a0 a1 a2 a3 a4 a5 a6 a7], b as [b0 b1 b2 b3 b4 b5 b6 b7],
           c as [c0 c1 c2 c3 c4 c5 c6 c7], d as [x0 x1 x2 x3 x4 x5 x6 x7].
  cbv [inv_mix_word mix_word bxor4 mul2 mul3 mul9 mul11 mul13 mul14 xtime bxor].
  repeat f_equal; btauto.
Qed.

Lemma InvMixColumns_MixColumns (s : block) : InvMixColumns (MixColumns s) = s.
Proof.
  destruct s as [[[a b] c] d]; cbv [InvMixColumns MixColumns bmap].
  now rewrite !inv_mix_word_mix_word.
Qed.

Lemma inv_round_round (k s : block) : inv_round k (round k s) = s.
Proof.
  unfold inv_round, round.
  now rewrite AddRoundKey_involutive, InvMixColumns_MixColumns,
    InvShiftRows_ShiftRows, InvSubBytes_SubBytes.
Qed.

Lemma inv_final_round_final_round (k s : block) :
  inv_final_round k (final_round k s) = s.
Proof.
  unfold inv_final_round, final_round.
  now rewrite AddRoundKey_involutive, InvShiftRows_ShiftRows, InvSubBytes_SubBytes.
Qed.

Lemma inv_rounds_rounds (ks : list block) (s : block) :
  fold_right inv_round (fold_left (fun st k => round k st) ks s) ks = s.
Proof.
  revert s; induction ks as [|k ks IH]; intros s; simpl; [reflexivity|].
  now rewrite IH, inv_round_round.
Qed.

Lemma decrypt_encrypt_block (rks : list block) (s : block) :
  decrypt_block rks (encrypt_block rks s) = s.
Proof.
  destruct rks as [|k0 rest]; [reflexivity|].
  unfold decrypt_block, encrypt_block.
  now rewrite inv_final_round_final_round, inv_rounds_rounds, AddRoundKey_involutive.
Qed.

(** The cipher is the one of FIPS 197: appendix C.3, key [00 01 .. 1f],
    plaintext [00 11 .. ff], ciphertext [8e a2 b7 ca .. 60 89]. *)
Example fips197_c3 :
  let key := map ascii_of_nat (seq 0 32) in
  let plain := map (fun i => ascii_of_nat (17 * i)) (seq 0 16) in
  map nat_of_ascii
    (bytes_of_block (encrypt_block (KeyExpansion (key_of_bytes key))
                       (CBC.block_of_bytes plain)))
  = [142; 162; 183; 202; 81; 103; 69; 191; 234; 252; 73; 144; 75; 73; 96; 137]%nat.
Proof. vm_compute. reflexivity. Qed.

End AES256Facts.

Module CBCFacts.
Import GF256 AES256 CBC AES256Facts.

Lemma chunk_app_block (b : block) (l : list byte) :
  chunk (bytes_of_block b ++ l) = b :: chunk l.
Proof.
  destruct b as [[[[[[a0 a1] a2] a3] [[[b0 b1] b2] b3]] [[[c0 c1] c2] c3]] [[[e0 e1] e2] e3]].
  reflexivity.
Qed.

Lemma chunk_unchunk (bs : list block) : chunk (unchunk bs) = bs.
Proof.
  induction bs as [|b bs IH]; [reflexivity|].
  unfold unchunk in *; simpl. now rewrite chunk_app_block, IH.
Qed.

Lemma length_unchunk (bs : list block) : length (unchunk bs) = 16 * length bs.
Proof.
  induction bs as [|b bs IH]; [reflexivity|].
  unfold unchunk in *; simpl flat_map. rewrite length_app, IH.
  destruct b as [[[[[[a0 a1] a2] a3] [[[b0 b1] b2] b3]] [[[c0 c1] c2] c3]] [[[e0 e1] e2] e3]].
  simpl length. lia.
Qed.

Lemma unchunk_chunk (n : nat) (l : list byte) :
  length l = 16 * n -> unchunk (chunk l) = l.
Proof.
  revert l; induction n as [|n IH]; intros l Hl.
  - destruct l; [reflexivity | simpl in Hl; lia].
  - do 16 (destruct l as [|? l]; [simpl in Hl; lia|]).
    simpl chunk. unfold unchunk in *; simpl flat_map.
    rewrite IH; [reflexivity | simpl in Hl; lia].
Qed.

Lemma length_chunk (n : nat) (l : list byte) :
  length l = 16 * n -> length (chunk l) = n.
Proof.
  revert l; induction n as [|n IH]; intros l Hl.
  - destruct l; [reflexivity | simpl in Hl; lia].
  - do 16 (destruct l as [|? l]; [simpl in Hl; lia|]).
    simpl chunk. simpl length. rewrite IH; [reflexivity | simpl in Hl; lia].
Qed.

Lemma cbc_decrypt_encrypt (rks : list block) (iv : block) (ps : list block) :
  cbc_decrypt rks iv (cbc_encrypt rks iv ps) = ps.
Proof.
  revert iv; induction ps as [|p ps IH]; intros iv; simpl; [reflexivity|].
  now rewrite decrypt_encrypt_block, xor_block_involutive, IH.
Qed.

Lemma length_cbc_encrypt (rks : list block) (iv : block) (ps : list block) :
  length (cbc_encrypt rks iv ps) = length ps.
Proof.
  revert iv; induction ps as [|p ps IH]; intros iv; simpl; [reflexivity|].
  now rewrite IH.
Qed.

Lemma pad_length (l : list byte) :
  exists n, length (pad l) = 16 * S n.
Proof.
  unfold pad. rewrite length_app, repeat_length.
  exists (length l / 16).
  pose proof (Nat.div_mod_eq (length l) 16).
  pose proof (Nat.mod_upper_bound (length l) 16). lia.
Qed.

Lemma forallb_repeat {A} (f : A -> bool) (x : A) (n : nat) :
  f x = true -> forallb f (repeat x n) = true.
Proof. intros Hx; induction n; simpl; [reflexivity | now rewrite Hx]. Qed.

Lemma last_app_repeat {A} (l : list A) (x d : A) (n : nat) :
  last (l ++ repeat x (S n)) d = x.
Proof.
  simpl repeat. rewrite repeat_cons, app_assoc. apply last_last.
Qed.

Lemma unpad_pad (l : list byte) : unpad (pad l) = Some l.
Proof.
  unfold pad, unpad.
  pose proof (Nat.mod_upper_bound (length l) 16 ltac:(lia)) as Hm.
  set (n := 16 - length l mod 16) in *.
  assert (Hn : 1 <= n <= 16) by (unfold n; lia).
  destruct n as [|m] eqn:En; [lia|].
  rewrite last_app_repeat.
  rewrite nat_ascii_embedding by lia.
  rewrite length_app, repeat_length.
  replace (length l + S m - S m) with (length l) by lia.
  rewrite skipn_app, skipn_all, Nat.sub_diag, firstn_app, firstn_all, Nat.sub_diag.
  rewrite skipn_O, firstn_O, app_nil_r, app_nil_l.
  rewrite forallb_repeat by apply Ascii.eqb_refl.
  replace (1 <=? S m) with true by (symmetry; apply Nat.leb_le; lia).
  replace (S m <=? 16) with true by (symmetry; apply Nat.leb_le; lia).
  replace (S m <=? length l + S m) with true by (symmetry; apply Nat.leb_le; lia).
  reflexivity.
Qed.

Lemma decipher_cipher (key iv text : list byte) :
  decipher key iv (cipher key iv text) = Some text.
Proof.
  unfold decipher, cipher.
  destruct (pad_length text) as [n Hn].
  rewrite length_unchunk, length_cbc_encrypt, (length_chunk (S n)) by exact Hn.
  replace (16 * S n =? 0) with false by (symmetry; apply Nat.eqb_neq; lia).
  replace (16 * S n) with (S n * 16) by lia.
  rewrite Nat.Div0.mod_mul. simpl orb.
  rewrite chunk_unchunk, cbc_decrypt_encrypt, (unchunk_chunk (S n)) by exact Hn.
  apply unpad_pad.
Qed.

End CBCFacts.

Module HexFacts.
Import GF256 Hex.

Lemma hex_decode_byte (b : byte) (r : string) :
  hex_decode (string_of_list_ascii (hex_of_byte b) ++ r) = b :: hex_decode r.
Proof.
  destruct b as [[] [] [] [] [] [] [] []]; reflexivity.
Qed.

Lemma string_of_list_ascii_app (l1 l2 : list ascii) :
  string_of_list_ascii (l1 ++ l2) = (string_of_list_ascii l1 ++ string_of_list_ascii l2)%string.
Proof. induction l1 as [|c l1 IH]; simpl; [reflexivity | now rewrite IH]. Qed.

Lemma hex_decode_encode (l : list byte) : hex_decode (hex_encode l) = l.
Proof.
  unfold hex_encode.
  induction l as [|b l IH]; [reflexivity|].
  change (flat_map hex_of_byte (b :: l)) with (hex_of_byte b ++ flat_map hex_of_byte l).
  rewrite string_of_list_ascii_app, hex_decode_byte.
  now rewrite IH.
Qed.

Lemma length_hex_encode (l : list byte) : String.length (hex_encode l) = 2 * length l.
Proof.
  unfold hex_encode. induction l as [|b l IH]; [reflexivity|].
  cbn [flat_map hex_of_byte app string_of_list_ascii String.length length].
  rewrite IH. lia.
Qed.

Lemma odd_length_hex_encode (l : list byte) : Nat.odd (String.length (hex_encode l)) = false.
Proof.
  rewrite length_hex_encode, <- Nat.negb_even, Nat.even_mul. reflexivity.
Qed.

End HexFacts.

(** ** [JSON.parse] inverts [JSON.stringify] *)

Module JSONFacts.
Import JSON.

Section json_induction.
Variable P : json -> Prop.
Hypothesis HNull : P JNull.
Hypothesis HBool : forall b, P (JBool b).
Hypothesis HNumber : forall z, P (JNumber z).
Hypothesis HDecimal : forall m e, P (JDecimal m e).
Hypothesis HString : forall s, P (JString s).
Hypothesis HArray : forall l, Forall P l -> P (JArray l).
Hypothesis HObject : forall fs, Forall (fun kv => P (snd kv)) fs -> P (JObject fs).

Fixpoint json_nested_ind (v : json) : P v :=
  match v with
  | JNull => HNull
  | JBool b => HBool b
  | JNumber z => HNumber z
  | JDecimal m e => HDecimal m e
  | JString s => HString s
  | JArray l =>
      HArray l
        ((fix all (l : list json) : Forall P l :=
            match l with
            | [] => Forall_nil P
            | x :: r => Forall_cons x (json_nested_ind x) (all r)
            end) l)
  | JObject fs =>
      HObject fs
        ((fix all (fs : list (string * json)) : Forall (fun kv => P (snd kv)) fs :=
            match fs with
            | [] => Forall_nil _
            | kv :: r => Forall_cons kv (json_nested_ind (snd kv)) (all r)
            end) fs)
  end.
End json_induction.

(** *** Strings *)

Lemma parse_chars_escape_char (c : ascii) (tail : chars) :
  parse_chars (escape_char c ++ tail) = prepend [c] (parse_chars tail).
Proof. destruct c as [[] [] [] [] [] [] [] []]; reflexivity. Qed.

Lemma parse_chars_escape (l rest : chars) :
  parse_chars (flat_map escape_char l ++ dquote :: rest) = Some (l, rest).
Proof.
  induction l as [|c l IH]; [reflexivity|].
  change (flat_map escape_char (c :: l)) with (escape_char c ++ flat_map escape_char l).
  rewrite <- app_assoc, parse_chars_escape_char, IH. reflexivity.
Qed.

Lemma parse_string_escape (s : string) (rest : chars) :
  parse_string (flat_map escape_char (list_ascii_of_string s) ++ dquote :: rest)
  = Some (s, rest).
Proof.
  unfold parse_string. rewrite parse_chars_escape.
  now rewrite string_of_list_ascii_of_string.
Qed.

Lemma quote_app (s : string) (rest : chars) :
  quote s ++ rest
  = dquote :: flat_map escape_char (list_ascii_of_string s) ++ dquote :: rest.
Proof. unfold quote. simpl. now rewrite <- app_assoc. Qed.

(** *** Numbers *)

Lemma terminated_no_digit (rest : chars) :
  terminated rest = true -> parse_digits rest = (Decimal.Nil, rest).
Proof.
  destruct rest as [|c r]; [reflexivity|].
  destruct c as [[] [] [] [] [] [] [] []]; simpl; intros H; try discriminate H; reflexivity.
Qed.

Lemma terminated_no_fraction (rest : chars) :
  terminated rest = true -> parse_fraction rest = Some (None, rest).
Proof.
  destruct rest as [|c r]; [reflexivity|].
  destruct c as [[] [] [] [] [] [] [] []]; simpl; intros H; try discriminate H; reflexivity.
Qed.

Lemma terminated_no_exponent (rest : chars) :
  terminated rest = true -> parse_exponent rest = Some (None, rest).
Proof.
  destruct rest as [|c r]; [reflexivity|].
  destruct c as [[] [] [] [] [] [] [] []]; simpl; intros H; try discriminate H; reflexivity.
Qed.

Lemma parse_digits_chars (d : Decimal.uint) (rest : chars) :
  parse_digits rest = (Decimal.Nil, rest) ->
  parse_digits (chars_of_uint d ++ rest) = (d, rest).
Proof.
  intros H; induction d; simpl; try rewrite IHd; try reflexivity.
  exact H.
Qed.

Lemma plain_decimal_nzhead (d : Decimal.uint) :
  Decimal.nzhead d = Decimal.Nil \/
  (plain_decimal (Decimal.nzhead d) = true /\ Decimal.nzhead d <> Decimal.Nil).
Proof.
  induction d; simpl; auto; right; split; auto; discriminate.
Qed.

Lemma plain_decimal_unorm (d : Decimal.uint) : plain_decimal (Decimal.unorm d) = true.
Proof.
  unfold Decimal.unorm.
  destruct (plain_decimal_nzhead d) as [-> | [H Hn]]; [reflexivity|].
  destruct (Decimal.nzhead d); try reflexivity; try exact H; congruence.
Qed.

Lemma plain_decimal_to_uint (n : N) : plain_decimal (N.to_uint n) = true.
Proof.
  rewrite <- (DecimalN.Unsigned.of_to n) at 1.
  rewrite DecimalN.Unsigned.to_of. apply plain_decimal_unorm.
Qed.

Lemma chars_of_uint_head (d : Decimal.uint) :
  plain_decimal d = true ->
  exists c t, chars_of_uint d = c :: t /\ number_start c = true
              /\ Ascii.eqb c "-"%char = false /\ Ascii.eqb c "+"%char = false.
Proof.
  destruct d; simpl; try discriminate; intros _; eexists; eexists; repeat split.
Qed.

Lemma signed_abs (z : Z) :
  signed (z <? 0)%Z (N.of_uint (N.to_uint (Z.abs_N z))) = z.
Proof.
  rewrite DecimalN.Unsigned.of_to. unfold signed. rewrite N2Z.inj_abs_N.
  destruct (Z.ltb_spec z 0); lia.
Qed.

(** The sign and the digits of a printed integer are read back. *)
Lemma strip_sign_print_Z (z : Z) (rest : chars) :
  strip_sign (print_Z z ++ rest)
  = ((z <? 0)%Z, chars_of_uint (N.to_uint (Z.abs_N z)) ++ rest).
Proof.
  unfold print_Z. destruct (z <? 0)%Z; [reflexivity|].
  destruct (chars_of_uint_head _ (plain_decimal_to_uint (Z.abs_N z)))
    as (c & t & Hc & _ & Hm & _).
  simpl app. rewrite Hc. simpl. now rewrite Hm.
Qed.

Lemma print_Z_head (z : Z) :
  exists c t, print_Z z = c :: t /\ number_start c = true /\ Ascii.eqb c "+"%char = false.
Proof.
  unfold print_Z. destruct (z <? 0)%Z.
  - eexists; eexists; repeat split.
  - destruct (chars_of_uint_head _ (plain_decimal_to_uint (Z.abs_N z)))
      as (c & t & Hc & Hn & _ & Hp).
    exists c, t. now rewrite Hc.
Qed.

Lemma to_uint_not_nil (n : N) (A : Type) (x y : A) :
  match N.to_uint n with Decimal.Nil => x | _ => y end = y.
Proof.
  pose proof (plain_decimal_to_uint n) as H.
  destruct (N.to_uint n); try reflexivity. discriminate H.
Qed.

Lemma parse_number_print (z : Z) (rest : chars) :
  terminated rest = true -> parse_number (print_Z z ++ rest) = Some (JNumber z, rest).
Proof.
  intros H. unfold parse_number.
  rewrite strip_sign_print_Z, parse_digits_chars by now apply terminated_no_digit.
  rewrite plain_decimal_to_uint, terminated_no_fraction, terminated_no_exponent by exact H.
  now rewrite signed_abs.
Qed.

Lemma parse_exponent_print (e : Z) (rest : chars) :
  terminated rest = true ->
  parse_exponent ("e"%char :: print_Z e ++ rest) = Some (Some e, rest).
Proof.
  intros H. unfold parse_exponent. cbn [head_is tl Ascii.eqb Bool.eqb orb].
  destruct (print_Z_head e) as (c & t & Hc & _ & Hp).
  assert (Hh : head_is "+"%char (print_Z e ++ rest) = false).
  { rewrite Hc. simpl. exact Hp. }
  rewrite Hh, strip_sign_print_Z, parse_digits_chars by now apply terminated_no_digit.
  rewrite to_uint_not_nil. now rewrite signed_abs.
Qed.

Lemma parse_decimal_print (m e : Z) (rest : chars) :
  terminated rest = true ->
  parse_number (print_Z m ++ "e"%char :: print_Z e ++ rest) = Some (JDecimal m e, rest).
Proof.
  intros H. unfold parse_number.
  rewrite strip_sign_print_Z, parse_digits_chars by reflexivity.
  rewrite plain_decimal_to_uint.
  change (parse_fraction ("e"%char :: print_Z e ++ rest))
    with (Some (@None Decimal.uint, "e"%char :: print_Z e ++ rest)).
  cbv beta iota. rewrite parse_exponent_print by exact H.
  now rewrite signed_abs, Z.sub_0_r.
Qed.

(** *** Values *)

Lemma print_head (v : json) :
  exists c t, print v = c :: t /\ value_start c = true.
Proof.
  destruct v as [| [] | z | m e | s | l | fs]; try (eexists; eexists; split; reflexivity).
  - destruct (print_Z_head z) as (c & t & Hc & Hn & _).
    exists c, t. split; [exact Hc|]. unfold value_start. now rewrite Hn.
  - destruct (print_Z_head m) as (c & t & Hc & Hn & _).
    exists c, (t ++ "e"%char :: print_Z e). split; [simpl; now rewrite Hc|].
    unfold value_start. now rewrite Hn.
Qed.

Lemma value_start_not_ws (c : ascii) : value_start c = true -> is_ws c = false.
Proof. destruct c as [[] [] [] [] [] [] [] []]; simpl; intros H; try discriminate H; reflexivity. Qed.

Lemma value_start_not_close (c : ascii) :
  value_start c = true -> Ascii.eqb c "]"%char = false /\ Ascii.eqb c "}"%char = false.
Proof. destruct c as [[] [] [] [] [] [] [] []]; simpl; intros H; try discriminate H; split; reflexivity. Qed.

Lemma number_start_dispatch (c : ascii) :
  number_start c = true ->
  is_ws c = false /\ Ascii.eqb c "n"%char = false /\ Ascii.eqb c "t"%char = false
  /\ Ascii.eqb c "f"%char = false /\ Ascii.eqb c dquote = false
  /\ Ascii.eqb c "["%char = false /\ Ascii.eqb c "{"%char = false.
Proof.
  destruct c as [[] [] [] [] [] [] [] []]; simpl; intros H; try discriminate H;
    repeat split; reflexivity.
Qed.

Lemma parse_value_number (fuel : nat) (c : ascii) (t : chars) :
  number_start c = true ->
  parse_value (S fuel) (c :: t) = parse_number (c :: t).
Proof.
  intros H. destruct (number_start_dispatch c H) as (Hw & Hn & Ht & Hf & Hq & Ha & Ho).
  simpl. rewrite Hw. simpl. rewrite Hn, Ht, Hf, Hq, Ha, Ho. reflexivity.
Qed.

Lemma skip_ws_value (v : json) (rest : chars) :
  skip_ws (print v ++ rest) = print v ++ rest.
Proof.
  destruct (print_head v) as (c & t & Hc & Hs).
  rewrite Hc. simpl. now rewrite (value_start_not_ws c Hs).
Qed.

Lemma skip_ws_terminated (rest : chars) :
  terminated rest = true -> skip_ws rest = rest.
Proof.
  destruct rest as [|c r]; [reflexivity|].
  destruct c as [[] [] [] [] [] [] [] []]; simpl; intros H; try discriminate H; reflexivity.
Qed.

Lemma head_is_print (v : json) (rest : chars) :
  head_is "]"%char (print v ++ rest) = false /\ head_is "}"%char (print v ++ rest) = false.
Proof.
  destruct (print_head v) as (c & t & Hc & Hs).
  rewrite Hc. simpl. now apply value_start_not_close.
Qed.

Lemma join_cons (x : chars) (ls : list chars) :
  ls <> [] -> join (x :: ls) = x ++ ","%char :: join ls.
Proof. destruct ls; [congruence | reflexivity]. Qed.

Lemma join_single (x : chars) : join [x] = x.
Proof. reflexivity. Qed.

#[local] Arguments join : simpl never.

Lemma print_array (l : list json) :
  print (JArray l) = "["%char :: join (map print l) ++ ["]"%char].
Proof. reflexivity. Qed.

Lemma print_object (fs : list (string * json)) :
  print (JObject fs) = "{"%char :: join (map member_text fs) ++ ["}"%char].
Proof. reflexivity. Qed.

Lemma parse_value_array (fuel : nat) (s : chars) :
  parse_value (S fuel) ("["%char :: s)
  = if head_is "]"%char (skip_ws s) then Some (JArray [], tl (skip_ws s))
    else match parse_elements fuel s with
         | Some (vs, r) => Some (JArray vs, r)
         | None => None
         end.
Proof. reflexivity. Qed.

Lemma parse_value_object (fuel : nat) (s : chars) :
  parse_value (S fuel) ("{"%char :: s)
  = if head_is "}"%char (skip_ws s) then Some (JObject [], tl (skip_ws s))
    else match parse_members fuel s with
         | Some (ms, r) => Some (JObject ms, r)
         | None => None
         end.
Proof. reflexivity. Qed.

Lemma parse_elements_print (l : list json) :
  Forall value_ok l -> l <> [] ->
  forall fuel rest,
    S (length (join (map print l))) <= fuel ->
    parse_elements fuel (join (map print l) ++ "]"%char :: rest) = Some (l, rest).
Proof.
  induction 1 as [|x l Hx Hl IH]; [congruence|]. intros _ fuel rest Hf.
  destruct fuel as [|fuel]; [lia|].
  destruct l as [|y l].
  - simpl map in *. rewrite join_single in *.
    simpl parse_elements. rewrite Hx by (auto; lia).
    reflexivity.
  - change (map print (x :: y :: l)) with (print x :: map print (y :: l)) in *.
    rewrite join_cons in * by (simpl; discriminate).
    rewrite length_app in Hf. cbn [length] in Hf.
    rewrite <- app_assoc. cbn [app].
    simpl parse_elements. rewrite Hx by (auto; lia).
    cbn [skip_ws is_ws nat_of_ascii head_is tl]. simpl.
    rewrite IH by (try discriminate; lia).
    reflexivity.
Qed.

Lemma parse_members_print (fs : list (string * json)) :
  Forall (fun kv => value_ok (snd kv)) fs -> fs <> [] ->
  forall fuel rest,
    S (length (join (map member_text fs))) <= fuel ->
    parse_members fuel (join (map member_text fs) ++ "}"%char :: rest) = Some (fs, rest).
Proof.
  induction 1 as [|[k v] fs Hx Hl IH]; [congruence|]. intros _ fuel rest Hf.
  destruct fuel as [|fuel]; [lia|].
  simpl snd in Hx.
  destruct fs as [|kv fs].
  - simpl map in *. rewrite join_single in *. unfold member_text in *. cbn [fst snd] in *.
    rewrite length_app in Hf. cbn [length] in Hf.
    rewrite <- app_assoc, quote_app.
    simpl parse_members. rewrite parse_string_escape.
    simpl. rewrite Hx by (auto; lia).
    reflexivity.
  - change (map member_text ((k, v) :: kv :: fs))
      with (member_text (k, v) :: map member_text (kv :: fs)) in *.
    rewrite join_cons in * by (simpl; discriminate).
    rewrite length_app in Hf. cbn [length] in Hf.
    unfold member_text at 1. unfold member_text at 1 in Hf. cbn [fst snd] in *.
    rewrite length_app in Hf. cbn [length] in Hf.
    rewrite <- !app_assoc, quote_app.
    simpl parse_members. rewrite parse_string_escape.
    simpl. rewrite Hx by (auto; lia).
    simpl.
    rewrite IH by (try discriminate; lia).
    reflexivity.
Qed.

Lemma parse_value_print (v : json) : value_ok v.
Proof.
  induction v as [| b | z | m e | s | l IH | fs IH] using json_nested_ind;
    intros fuel rest Hf Ht;
    (destruct fuel as [|fuel];
     [match type of Hf with
      | length (print ?v) <= 0 =>
          destruct (print_head v) as (c & t & Hc & _); rewrite Hc in Hf; simpl in Hf; lia
      end|]).
  - reflexivity.
  - destruct b; reflexivity.
  - destruct (print_Z_head z) as (c & t & Hc & Hn & _).
    simpl print. rewrite Hc. simpl app. rewrite parse_value_number by exact Hn.
    change (c :: t ++ rest) with ((c :: t) ++ rest). rewrite <- Hc.
    now rewrite parse_number_print.
  - destruct (print_Z_head m) as (c & t & Hc & Hn & _).
    simpl print. rewrite <- app_assoc. cbn [app]. rewrite Hc. simpl app.
    rewrite parse_value_number by exact Hn.
    change (c :: t ++ "e"%char :: print_Z e ++ rest)
      with ((c :: t) ++ "e"%char :: print_Z e ++ rest). rewrite <- Hc.
    now rewrite parse_decimal_print.
  - simpl print. rewrite quote_app. simpl. now rewrite parse_string_escape.
  - destruct l as [|x l]; [reflexivity|].
    rewrite print_array in *. cbn [length] in Hf. rewrite length_app in Hf.
    cbn [length] in Hf. cbn [app]. rewrite <- app_assoc. cbn [app].
    assert (Hj : exists c t, join (map print (x :: l)) = c :: t /\ value_start c = true).
    { destruct (print_head x) as (c & t & Hc & Hs). simpl map. destruct l; simpl join.
      - eauto.
      - rewrite join_cons by discriminate. rewrite Hc. simpl. eauto. }
    destruct Hj as (c & t & Hc & Hs).
    pose proof (value_start_not_ws c Hs) as Hw.
    destruct (value_start_not_close c Hs) as [Hcl _].
    rewrite parse_value_array.
    assert (Hsk : skip_ws (join (map print (x :: l)) ++ "]"%char :: rest)
                  = join (map print (x :: l)) ++ "]"%char :: rest).
    { rewrite Hc. simpl. now rewrite Hw. }
    rewrite Hsk.
    assert (Hh : head_is "]"%char (join (map print (x :: l)) ++ "]"%char :: rest) = false).
    { rewrite Hc. simpl. exact Hcl. }
    rewrite Hh.
    rewrite parse_elements_print by (try discriminate; try exact IH; lia).
    reflexivity.
  - destruct fs as [|kv fs]; [reflexivity|].
    rewrite print_object in *. cbn [length] in Hf. rewrite length_app in Hf.
    cbn [length] in Hf. cbn [app]. rewrite <- app_assoc. cbn [app].
    assert (Hj : exists t, join (map member_text (kv :: fs)) = dquote :: t).
    { simpl map. destruct fs.
      - rewrite join_single. unfold member_text, quote. simpl. eauto.
      - rewrite join_cons by discriminate. unfold member_text at 1. unfold quote. simpl. eauto. }
    destruct Hj as (t & Hc).
    rewrite parse_value_object.
    assert (Hsk : skip_ws (join (map member_text (kv :: fs)) ++ "}"%char :: rest)
                  = join (map member_text (kv :: fs)) ++ "}"%char :: rest).
    { rewrite Hc. reflexivity. }
    rewrite Hsk.
    assert (Hh : head_is "}"%char (join (map member_text (kv :: fs)) ++ "}"%char :: rest) = false).
    { rewrite Hc. reflexivity. }
    rewrite Hh.
    rewrite parse_members_print by (try discriminate; try exact IH; lia).
    reflexivity.
Qed.

Lemma parse_stringify (v : json) : parse (stringify v) = Some v.
Proof.
  unfold parse, stringify.
  rewrite list_ascii_of_string_of_list_ascii.
  rewrite <- (app_nil_r (print v)) at 2.
  rewrite parse_value_print by (auto; lia).
  reflexivity.
Qed.

End JSONFacts.

(** ** The license file round trip and the invariant of the handler *)

Module LicenseFacts.
Import GF256 JSON License.

#[local] Arguments encrypt : simpl never.
#[local] Arguments decrypt : simpl never.
#[local] Arguments JSON_stringify : simpl never.
#[local] Arguments JSON_parse : simpl never.
#[local] Arguments getHardwareId : simpl never.

Lemma strings_of_map (l : list string) : strings_of (map JString l) = Some l.
Proof. induction l as [|s l IH]; simpl; [reflexivity | now rewrite IH]. Qed.

Lemma LicenseInfo_of_json_of (i : LicenseInfo) :
  LicenseInfo_of_json (json_of_LicenseInfo i) = Some i.
Proof.
  destruct i as [lk cn ce pp pt fe ex dr [aa|]];
    cbv [LicenseInfo_of_json json_of_LicenseInfo get_string get_number get_strings
         get_optional_string license_key customer_name customer_email plan_price
         plan_type features expires_at days_remaining activated_at app];
    cbn; rewrite strings_of_map; reflexivity.
Qed.

Lemma StoredLicense_of_json_of (l : StoredLicense) :
  StoredLicense_of_json (json_of_StoredLicense l) = Some l.
Proof.
  destruct l as [k h i lv aa].
  pose proof (LicenseInfo_of_json_of i) as Hi.
  unfold StoredLicense_of_json, json_of_StoredLicense, get_string.
  cbn [key hardwareId licenseInfo lastVerified activatedAt].
  cbn [get String.eqb Ascii.eqb Bool.eqb].
  now rewrite Hi.
Qed.

Lemma JSON_parse_stringify (l : StoredLicense) : JSON_parse (JSON_stringify l) = Some l.
Proof.
  unfold JSON_parse, JSON_stringify.
  now rewrite JSONFacts.parse_stringify, StoredLicense_of_json_of.
Qed.

Section Handler.

Variable P : Platform.

Lemma decrypt_encrypt (text : string) : decrypt P (encrypt P text) = Some text.
Proof.
  unfold decrypt, encrypt.
  rewrite HexFacts.odd_length_hex_encode.
  rewrite HexFacts.hex_decode_encode, CBCFacts.decipher_cipher.
  now rewrite string_of_list_ascii_of_string.
Qed.



Lemma persisted_saved (lic : StoredLicense) (w : World) :
  storedLicense w = Some lic ->
  persisted P (saveStoredLicense P w) = Some lic.
Proof.
  intros H. unfold persisted, LicenseHandler_new, saveStoredLicense, loadStoredLicense.
  rewrite H. cbn [licenseFile set_licenseFile now].
  now rewrite decrypt_encrypt, JSON_parse_stringify.
Qed.

Lemma storedLicense_saved (w : World) :
  storedLicense (saveStoredLicense P w) = storedLicense w.
Proof.
  unfold saveStoredLicense. destruct (storedLicense w) as [lic|] eqn:H; [|exact H].
  exact H.
Qed.

Lemma persisted_file (w w' : World) :
  licenseFile w = licenseFile w' -> persisted P w = persisted P w'.
Proof.
  unfold persisted, LicenseHandler_new, loadStoredLicense; cbn [licenseFile].
  intros ->. destruct (licenseFile w') as [c|]; [|reflexivity].
  destruct (decrypt P c) as [d|]; [|reflexivity].
  now destruct (JSON_parse d).
Qed.

Lemma coherent_new (file : option string) (t : Z) : coherent P (LicenseHandler_new P file t).
Proof.
  unfold coherent, persisted, LicenseHandler_new, loadStoredLicense; cbn [licenseFile].
  destruct file as [c|]; [|reflexivity].
  destruct (decrypt P c) as [d|] eqn:Hd; cbn [licenseFile set_storedLicense]; rewrite ?Hd.
  - destruct (JSON_parse d) eqn:Hp; cbn [licenseFile set_storedLicense]; now rewrite Hd, Hp.
  - reflexivity.
Qed.

Lemma coherent_post (e : Env) (req : Request) (w : World) :
  coherent P w -> coherent P (snd (axios_post e req w)).
Proof.
  unfold coherent. intros H. cbn [axios_post snd storedLicense].
  rewrite H. now apply persisted_file.
Qed.

Lemma coherent_save (lic : StoredLicense) (w : World) :
  coherent P (saveStoredLicense P (set_storedLicense (Some lic) w)).
Proof.
  unfold coherent.
  rewrite storedLicense_saved, (persisted_saved lic); reflexivity.
Qed.

Lemma coherent_cleared (w : World) :
  coherent P (set_licenseFile None (set_storedLicense None w)).
Proof. reflexivity. Qed.

Lemma coherent_deactivate (e : Env) (w : World) :
  coherent P w -> coherent P (snd (deactivateLicense P e w)).
Proof.
  intros H. unfold deactivateLicense.
  destruct (storedLicense w) as [lic|]; [|exact H].
  apply coherent_cleared.
Qed.

Lemma coherent_activate (e : Env) (k : string) (w : World) :
  coherent P w -> coherent P (snd (activateLicense P e k w)).
Proof.
  intros H. unfold activateLicense.
  pose proof (coherent_post e
    (ActivateRequest k (getHardwareId P (host e)) (hostname (host e))
       (os_type (host e) ++ " " ++ os_release (host e))%string (APP_VERSION (host e))) w H) as Hp.
  cbn [axios_post snd] in *.
  destruct (respond e _) as [[data|msg]|[r|]]; cbn [snd]; try exact Hp.
  apply coherent_save.
Qed.

Lemma coherent_verify (silent : bool) (e : Env) (w : World) :
  coherent P w -> coherent P (snd (verifyLicense P silent e w)).
Proof.
  intros H. unfold verifyLicense.
  destruct (storedLicense w) as [lic|] eqn:Hl; [|exact H].
  destruct (negb _); [exact H|].
  destruct (date_lt _ _); [exact H|].
  pose proof (coherent_post e
    (VerifyRequest (key lic) (getHardwareId P (host e)) (APP_VERSION (host e))) w H) as Hp.
  cbn [axios_post] in *. cbn [snd] in Hp.
  destruct (respond e _) as [[data|msg]|r]; cbn [snd].
  - apply coherent_save.
  - destruct silent; [exact Hp|]. now apply coherent_deactivate.
  - destruct (is_invalid_404 r); [exact Hp|].
    destruct (number_lt _ _); exact Hp.
Qed.

Lemma coherent_step (w w' : World) : coherent P w -> step P w w' -> coherent P w'.
Proof.
  intros H [e k | silent e | e | dt].
  - now apply coherent_activate.
  - now apply coherent_verify.
  - now apply coherent_deactivate.
  - unfold coherent in *. cbn [advance storedLicense]. rewrite H.
    now apply persisted_file.
Qed.

Lemma reachable_coherent (w : World) : reachable P w -> coherent P w.
Proof.
  induction 1 as [file t | w w' _ IH Hs].
  - apply coherent_new.
  - exact (coherent_step w w' IH Hs).
Qed.

(** The comparison of the elapsed hours with the grace period, in
    milliseconds: the quotient is below [72] exactly when fewer than
    [259200000] ms have passed. *)
Lemma number_lt_hours (t now : Z) :
  number_lt (hours_since (Some t) now) 72 = (now - t <? 259200000)%Z.
Proof.
  unfold number_lt, hours_since.
  destruct (Z.ltb_spec (now - t) 259200000) as [H | H].
  - apply negb_true_iff. apply not_true_iff_false. rewrite Qle_bool_iff.
    unfold Qle, Qdiv, Qmult, Qinv, inject_Z; simpl. lia.
  - apply negb_false_iff. rewrite Qle_bool_iff.
    unfold Qle, Qdiv, Qmult, Qinv, inject_Z; simpl. lia.
Qed.

End Handler.

End LicenseFacts.

(** ** The properties of the specification *)

Module Claims.
Import GF256 JSON License LicenseFacts Demo.

#[local] Arguments encrypt : simpl never.
#[local] Arguments decrypt : simpl never.
#[local] Arguments JSON_stringify : simpl never.
#[local] Arguments JSON_parse : simpl never.
#[local] Arguments getHardwareId : simpl never.

(** The first two checks of [verifyLicense] pass. *)
Ltac pass_local_checks Hl Hh He :=
  unfold verifyLicense; rewrite Hl, Hh, String.eqb_refl; cbn [negb];
  rewrite He; cbn [axios_post].

Lemma date_lt_not_passed (d : option Z) (x t : Z) :
  d = Some x -> (t <= x)%Z -> date_lt d (Some t) = false.
Proof. intros -> H. apply Z.ltb_ge. exact H. Qed.

Lemma hours_lt_ms (elapsed : Z) :
  (inject_Z elapsed / inject_Z (1000 * 60 * 60) < 72)%Q <-> (elapsed < 259200000)%Z.
Proof. unfold Qlt, Qdiv, Qmult, Qinv, inject_Z; simpl. lia. Qed.

Lemma hours_ge_ms (elapsed : Z) :
  (72 <= inject_Z elapsed / inject_Z (1000 * 60 * 60))%Q <-> (259200000 <= elapsed)%Z.
Proof. unfold Qle, Qdiv, Qmult, Qinv, inject_Z; simpl. lia. Qed.

(** The scenario of the specification: activation with the key [ABC-123]
    on an accepting server, then a feature check and a verification. *)
Example activate_then_verify :
  let e := demo_env demo_host accepting in
  let activation := activateLicense demo_platform e "ABC-123"
                      (LicenseHandler_new demo_platform None 0) in
  valid (fst activation) = true
  /\ hasFeature "export" (snd activation) = true
  /\ hasFeature "kiosk" (snd activation) = false
  /\ valid (fst (verifyLicense demo_platform false e (snd activation))) = true.
Proof. vm_compute. repeat split. Qed.

(** C1. With a stored license bound to this machine and not expired, when the
    verification request gets no reply, [verifyLicense] answers valid with the
    cached [licenseInfo] if fewer than 72 hours have passed since
    [lastVerified], and invalid with the reconnect message if 72 hours or more
    have passed; at exactly 72 hours the grace period is over. *)
Theorem C1_offline_grace_window
  (P : Platform) (silent : bool) (e : Env) (w : World) (lic : StoredLicense) (x t : Z) :
  storedLicense w = Some lic ->
  hardwareId lic = getHardwareId P (host e) ->
  Date_parse P (expires_at (licenseInfo lic)) = Some x -> (now w <= x)%Z ->
  respond e (VerifyRequest (key lic) (getHardwareId P (host e)) (APP_VERSION (host e)))
  = Rejected None ->
  Date_parse P (lastVerified lic) = Some t ->
  let w1 :=
    snd (axios_post e
           (VerifyRequest (key lic) (getHardwareId P (host e)) (APP_VERSION (host e))) w) in
  let hours := (inject_Z (now w1 - t) / inject_Z (1000 * 60 * 60))%Q in
  ((hours < 72)%Q ->
   verifyLicense P silent e w
   = ({| valid := true; message := "License valid (offline mode)";
         info := Some (licenseInfo lic) |}, w1))
  /\ ((72 <= hours)%Q ->
      verifyLicense P silent e w
      = (invalid "Unable to verify license. Please connect to the internet.", w1))
  /\ ((hours == 72)%Q -> valid (fst (verifyLicense P silent e w)) = false).
Proof.
  intros Hl Hh Hx Hle Hr Ht w1 hours.
  assert (He : date_lt (Date_parse P (expires_at (licenseInfo lic))) (Some (now w)) = false)
    by (eapply date_lt_not_passed; eauto).
  assert (Hv : verifyLicense P silent e w
               = if (now w1 - t <? 259200000)%Z
                 then ({| valid := true; message := "License valid (offline mode)";
                          info := Some (licenseInfo lic) |}, w1)
                 else (invalid "Unable to verify license. Please connect to the internet.",
                       w1)).
  { pass_local_checks Hl Hh He. rewrite Hr. cbn [is_invalid_404].
    rewrite Ht, number_lt_hours. reflexivity. }
  unfold hours. repeat split.
  - intros H. apply (proj1 (hours_lt_ms _)) in H. rewrite Hv.
    apply Z.ltb_lt in H. now rewrite H.
  - intros H. apply (proj1 (hours_ge_ms _)) in H. rewrite Hv.
    apply Z.ltb_ge in H. now rewrite H.
  - intros H.
    assert (H' : (72 <= inject_Z (now w1 - t) / inject_Z (1000 * 60 * 60))%Q)
      by (rewrite H; apply Qle_refl).
    apply (proj1 (hours_ge_ms _)) in H'. rewrite Hv.
    apply Z.ltb_ge in H'. now rewrite H'.
Qed.

Lemma C1_offline_grace_window_witness :
  (* 71 h 59 min after the last verification *)
  valid (fst (verifyLicense demo_platform true (demo_env demo_host offline)
                (world_with demo_license (72 * hour - 60000)))) = true
  /\ info (fst (verifyLicense demo_platform true (demo_env demo_host offline)
                  (world_with demo_license (72 * hour - 60000)))) = Some demo_info
  (* 72 h 00 min after the last verification *)
  /\ verifyLicense demo_platform true (demo_env demo_host offline)
       (world_with demo_license (72 * hour))
     = (invalid "Unable to verify license. Please connect to the internet.",
        snd (axios_post (demo_env demo_host offline) verify_request
               (world_with demo_license (72 * hour)))).
Proof.
  assert (G1 := C1_offline_grace_window demo_platform true (demo_env demo_host offline)
                  (world_with demo_license (72 * hour - 60000)) demo_license
                  2592000000 0 eq_refl eq_refl eq_refl ltac:(vm_compute; discriminate)
                  eq_refl eq_refl).
  assert (G2 := C1_offline_grace_window demo_platform true (demo_env demo_host offline)
                  (world_with demo_license (72 * hour)) demo_license
                  2592000000 0 eq_refl eq_refl eq_refl ltac:(vm_compute; discriminate)
                  eq_refl eq_refl).
  cbv zeta in G1, G2.
  destruct G1 as [G1 _]. destruct G2 as [_ [G2 _]].
  rewrite G1 by (vm_compute; reflexivity).
  rewrite G2 by (vm_compute; discriminate).
  repeat split.
Defined.

(** C2. A stored license whose [hardwareId] differs from the fingerprint of
    this machine is refused with the hardware message, whatever the [silent]
    flag, the server, the clock, the expiry date and the cached data are; the
    world is left as it was, so no request is posted. *)
Theorem C2_hardware_mismatch_is_terminal
  (P : Platform) (silent : bool) (e : Env) (w : World) (lic : StoredLicense) :
  storedLicense w = Some lic ->
  hardwareId lic <> getHardwareId P (host e) ->
  verifyLicense P silent e w = (invalid "License is bound to different hardware", w).
Proof.
  intros Hl Hh. unfold verifyLicense. rewrite Hl.
  apply String.eqb_neq in Hh. now rewrite Hh.
Qed.

Lemma C2_hardware_mismatch_is_terminal_witness :
  (* the license of [demo_host], within its grace period, on another machine *)
  verifyLicense demo_platform false (demo_env other_host accepting)
    (world_with demo_license hour)
  = (invalid "License is bound to different hardware", world_with demo_license hour).
Proof.
  apply (C2_hardware_mismatch_is_terminal demo_platform false (demo_env other_host accepting)
           (world_with demo_license hour) demo_license eq_refl).
  vm_compute. discriminate.
Defined.

(** C3, as stated, fails at the instant of expiry: with [now] equal to
    [expires_at] the license is not treated as expired, the server is asked,
    and its acceptance makes the result valid. *)
Lemma C3_counterexample :
  let w := world_with demo_license 2592000000 in
  let e := demo_env demo_host accepting in
  storedLicense w = Some demo_license
  /\ hardwareId demo_license = getHardwareId demo_platform (host e)
  /\ Date_parse demo_platform (expires_at (licenseInfo demo_license)) = Some (now w)
  /\ valid (fst (verifyLicense demo_platform false e w)) = true
  /\ sent (snd (verifyLicense demo_platform false e w)) = [verify_request].
Proof. vm_compute. repeat split. Qed.

(** C3 (amended). With a stored license bound to this machine, once the
    current time is strictly past [expires_at], [verifyLicense] answers
    invalid with the expiry message and leaves the world as it was: no request
    is posted, and the time since [lastVerified] plays no part. *)
Theorem C3_expired_is_terminal
  (P : Platform) (silent : bool) (e : Env) (w : World) (lic : StoredLicense) (x : Z) :
  storedLicense w = Some lic ->
  hardwareId lic = getHardwareId P (host e) ->
  Date_parse P (expires_at (licenseInfo lic)) = Some x ->
  (x < now w)%Z ->
  verifyLicense P silent e w = (invalid "License has expired", w).
Proof.
  intros Hl Hh Hx Hlt. unfold verifyLicense.
  rewrite Hl, Hh, String.eqb_refl, Hx. cbn [negb date_lt].
  apply Z.ltb_lt in Hlt. now rewrite Hlt.
Qed.

Lemma C3_expired_is_terminal_witness :
  (* one millisecond past the expiry, verified a moment ago, server willing *)
  verifyLicense demo_platform false (demo_env demo_host accepting)
    (world_with demo_license 2592000001)
  = (invalid "License has expired", world_with demo_license 2592000001).
Proof.
  apply (C3_expired_is_terminal demo_platform false (demo_env demo_host accepting)
           (world_with demo_license 2592000001) demo_license 2592000000
           eq_refl eq_refl eq_refl).
  vm_compute. reflexivity.
Defined.

(** C4. When the server answers the verification with [success: false], the
    result is invalid with the server's message (the default text when there
    is none).  With [silent = false] the license is deactivated first: the
    field is cleared and the license file removed.  With [silent = true] the
    field and the file are left as they were and only the verification
    request is posted. *)
Theorem C4_server_rejection
  (P : Platform) (e : Env) (w : World) (lic : StoredLicense) (x : Z) (msg : option string) :
  storedLicense w = Some lic ->
  hardwareId lic = getHardwareId P (host e) ->
  Date_parse P (expires_at (licenseInfo lic)) = Some x -> (now w <= x)%Z ->
  respond e (VerifyRequest (key lic) (getHardwareId P (host e)) (APP_VERSION (host e)))
  = Resolved (BodyFailure msg) ->
  let verify := VerifyRequest (key lic) (getHardwareId P (host e)) (APP_VERSION (host e)) in
  let loud := verifyLicense P false e w in
  let quiet := verifyLicense P true e w in
  (fst loud = invalid (or_default msg "License verification failed")
   /\ storedLicense (snd loud) = None
   /\ licenseFile (snd loud) = None
   /\ sent (snd loud)
      = sent w ++ [verify; DeactivateRequest (key lic) (getHardwareId P (host e))])
  /\ (fst quiet = invalid (or_default msg "License verification failed")
      /\ storedLicense (snd quiet) = Some lic
      /\ licenseFile (snd quiet) = licenseFile w
      /\ sent (snd quiet) = sent w ++ [verify])
  /\ (forall m, msg = Some m -> m <> "" ->
      message (fst loud) = m /\ message (fst quiet) = m).
Proof.
  intros Hl Hh Hx Hle Hr verify loud quiet.
  assert (He : date_lt (Date_parse P (expires_at (licenseInfo lic))) (Some (now w)) = false)
    by (eapply date_lt_not_passed; eauto).
  assert (Hloud : loud
    = (invalid (or_default msg "License verification failed"),
       snd (deactivateLicense P e (snd (axios_post e verify w))))).
  { unfold loud. pass_local_checks Hl Hh He. rewrite Hr. reflexivity. }
  assert (Hquiet : quiet
    = (invalid (or_default msg "License verification failed"),
       snd (axios_post e verify w))).
  { unfold quiet. pass_local_checks Hl Hh He. rewrite Hr. reflexivity. }
  rewrite Hloud, Hquiet. unfold deactivateLicense. cbn [axios_post snd fst storedLicense].
  rewrite Hl. cbn [axios_post snd fst storedLicense licenseFile sent set_licenseFile
                   set_storedLicense].
  repeat split; try reflexivity.
  - now rewrite <- app_assoc.
  - apply String.eqb_neq in H0. subst msg. cbn [invalid message or_default]. now rewrite H0.
  - apply String.eqb_neq in H0. subst msg. cbn [invalid message or_default]. now rewrite H0.
Qed.

Lemma C4_server_rejection_witness :
  let w := world_with demo_license hour in
  let e := demo_env demo_host rejecting in
  (fst (verifyLicense demo_platform false e w) = invalid "License revoked"
   /\ storedLicense (snd (verifyLicense demo_platform false e w)) = None
   /\ licenseFile (snd (verifyLicense demo_platform false e w)) = None)
  /\ (fst (verifyLicense demo_platform true e w) = invalid "License revoked"
      /\ storedLicense (snd (verifyLicense demo_platform true e w)) = Some demo_license
      /\ licenseFile (snd (verifyLicense demo_platform true e w)) = licenseFile w).
Proof.
  intros w e.
  destruct (C4_server_rejection demo_platform e w demo_license 2592000000
              (Some "License revoked") eq_refl eq_refl eq_refl
              ltac:(vm_compute; discriminate) eq_refl)
    as [(A1 & A2 & A3 & _) [(B1 & B2 & B3 & _) _]].
  repeat split; assumption.
Defined.

(** C5. From any state the handler can reach, [deactivateLicense] returns a
    result and leaves no license in memory and none that could be loaded from
    the disk, whatever the server answers to the notification; a second call,
    and a call without a license, return the "No license found" result and
    change nothing.  When there was a license, its file is removed. *)
Theorem C5_deactivation_idempotent
  (P : Platform) (w : World) (e1 e2 : Env) :
  reachable P w ->
  let first := deactivateLicense P e1 w in
  let second := deactivateLicense P e2 (snd first) in
  storedLicense (snd first) = None
  /\ persisted P (snd first) = None
  /\ (storedLicense w <> None ->
      licenseFile (snd first) = None
      /\ fst first = {| success := true; notice := "License deactivated" |})
  /\ (storedLicense w = None ->
      first = ({| success := false; notice := "No license found" |}, w))
  /\ second = ({| success := false; notice := "No license found" |}, snd first).
Proof.
  intros Hr first second.
  pose proof (reachable_coherent P w Hr) as Hc.
  pose proof (coherent_deactivate P e1 w Hc) as Hc1. fold first in Hc1.
  assert (Hn : storedLicense (snd first) = None).
  { unfold first, deactivateLicense. destruct (storedLicense w) eqn:Hl; [reflexivity|exact Hl]. }
  split; [exact Hn|]. split; [now rewrite <- Hc1|]. split; [|split].
  - intros Hs. unfold first, deactivateLicense.
    destruct (storedLicense w); [split; reflexivity | congruence].
  - intros Hs. unfold first, deactivateLicense. now rewrite Hs.
  - unfold second, deactivateLicense. now rewrite Hn.
Qed.

Lemma C5_deactivation_idempotent_witness :
  (* activate, then deactivate twice while the server is out of reach *)
  let w0 := LicenseHandler_new demo_platform None 0 in
  let w := snd (activateLicense demo_platform (demo_env demo_host accepting) "ABC-123" w0) in
  let first := deactivateLicense demo_platform (demo_env demo_host offline) w in
  let second := deactivateLicense demo_platform (demo_env demo_host offline) (snd first) in
  storedLicense w <> None
  /\ licenseFile w <> None
  /\ licenseFile (snd first) = None
  /\ persisted demo_platform (snd first) = None
  /\ second = ({| success := false; notice := "No license found" |}, snd first).
Proof.
  intros w0 w first second.
  assert (Hr : reachable demo_platform w).
  { eapply reachable_step; [apply reachable_new | apply step_activate]. }
  destruct (C5_deactivation_idempotent demo_platform w
              (demo_env demo_host offline) (demo_env demo_host offline) Hr)
    as (_ & A2 & A3 & _ & A5).
  assert (Hs : storedLicense w <> None) by (vm_compute; discriminate).
  destruct (A3 Hs) as [A3' _].
  repeat split; try assumption.
  vm_compute. discriminate.
Defined.

(** C6. When the verification request is answered with status 404 and code
    ["INVALID"], the result is invalid with the server's message (the default
    text when there is none), for both values of [silent]; the license stays
    in memory and on disk, only the verification request is posted, and the
    time since [lastVerified] plays no part. *)
Theorem C6_invalid_key_404
  (P : Platform) (silent : bool) (e : Env) (w : World) (lic : StoredLicense) (x : Z)
  (r : ErrorResponse) :
  storedLicense w = Some lic ->
  hardwareId lic = getHardwareId P (host e) ->
  Date_parse P (expires_at (licenseInfo lic)) = Some x -> (now w <= x)%Z ->
  respond e (VerifyRequest (key lic) (getHardwareId P (host e)) (APP_VERSION (host e)))
  = Rejected (Some r) ->
  status r = 404%Z -> code r = Some "INVALID" ->
  let verify := VerifyRequest (key lic) (getHardwareId P (host e)) (APP_VERSION (host e)) in
  let result := verifyLicense P silent e w in
  fst result = invalid (or_default (error_message r) "Invalid license")
  /\ storedLicense (snd result) = Some lic
  /\ licenseFile (snd result) = licenseFile w
  /\ sent (snd result) = sent w ++ [verify].
Proof.
  intros Hl Hh Hx Hle Hr Hs Hc verify result.
  assert (He : date_lt (Date_parse P (expires_at (licenseInfo lic))) (Some (now w)) = false)
    by (eapply date_lt_not_passed; eauto).
  assert (Hres : result = (invalid (or_default (error_message r) "Invalid license"),
                           snd (axios_post e verify w))).
  { unfold result. pass_local_checks Hl Hh He. rewrite Hr.
    unfold is_invalid_404. rewrite Hs, Hc. reflexivity. }
  rewrite Hres. cbn [fst snd axios_post storedLicense licenseFile sent].
  repeat split; assumption || reflexivity.
Qed.

Lemma C6_invalid_key_404_witness :
  (* one hour after the last verification: the grace period would apply *)
  let w := world_with demo_license hour in
  let e := demo_env demo_host unknown_key in
  fst (verifyLicense demo_platform false e w) = invalid "License key is invalid"
  /\ fst (verifyLicense demo_platform true e w) = invalid "License key is invalid"
  /\ storedLicense (snd (verifyLicense demo_platform false e w)) = Some demo_license
  /\ licenseFile (snd (verifyLicense demo_platform false e w)) = licenseFile w.
Proof.
  intros w e.
  destruct (C6_invalid_key_404 demo_platform false e w demo_license 2592000000
              {| status := 404; code := Some "INVALID";
                 error_message := Some "License key is invalid" |}
              eq_refl eq_refl eq_refl ltac:(vm_compute; discriminate) eq_refl eq_refl eq_refl)
    as (A1 & A2 & A3 & _).
  destruct (C6_invalid_key_404 demo_platform true e w demo_license 2592000000
              {| status := 404; code := Some "INVALID";
                 error_message := Some "License key is invalid" |}
              eq_refl eq_refl eq_refl ltac:(vm_compute; discriminate) eq_refl eq_refl eq_refl)
    as (B1 & _).
  repeat split; assumption.
Defined.


(** The round trip, run on the license of the examples. *)
Example round_trip_demo_license :
  storedLicense
    (LicenseHandler_new demo_platform (licenseFile (world_with demo_license 0)) hour)
  = Some demo_license.
Proof. vm_compute. reflexivity. Qed.

(** C8. On a license file that is missing, on which [decrypt] throws or on
    whose text [JSON.parse] throws, the constructor returns (it does not
    throw) a handler without a license and leaves the file alone; the handler
    then behaves as unactivated. *)
Theorem C8_load_missing_or_corrupt
  (P : Platform) (file : option string) (t : Z) :
  unreadable P file ->
  let w := LicenseHandler_new P file t in
  storedLicense w = None
  /\ licenseFile w = file
  /\ (forall silent e, verifyLicense P silent e w = (invalid "No license found", w))
  /\ (forall name, hasFeature name w = false).
Proof.
  intros Hu w.
  assert (Hn : storedLicense w = None).
  { unfold w, LicenseHandler_new, loadStoredLicense. cbn [licenseFile].
    destruct Hu as [| c Hd | c d Hd Hp]; [reflexivity | now rewrite Hd |].
    rewrite Hd. unfold JSON_parse. now rewrite Hp. }
  assert (Hf : licenseFile w = file).
  { unfold w, LicenseHandler_new, loadStoredLicense. cbn [licenseFile].
    destruct file as [c|]; [|reflexivity].
    destruct (decrypt P c) as [d|]; [|reflexivity].
    now destruct (JSON_parse d). }
  repeat split; try assumption.
  - intros silent e. unfold verifyLicense. now rewrite Hn.
  - intros name. unfold hasFeature. now rewrite Hn.
Qed.

Lemma C8_load_missing_or_corrupt_witness :
  (* a file that holds something else than a saved license *)
  storedLicense (LicenseHandler_new demo_platform (Some "not a license") 0) = None
  /\ licenseFile (LicenseHandler_new demo_platform (Some "not a license") 0)
     = Some "not a license".
Proof.
  destruct (C8_load_missing_or_corrupt demo_platform (Some "not a license") 0)
    as (A1 & A2 & _).
  - apply unreadable_undecryptable. vm_compute. reflexivity.
  - split; assumption.
Defined.

(** Two more unreadable files: a saved license cut short, and the encryption
    of a text that is not JSON. *)
Example unreadable_truncated :
  match licenseFile (world_with demo_license 0) with
  | Some c => decrypt demo_platform (substring 0 (String.length c - 10) c) = None
  | None => False
  end.
Proof. vm_compute. reflexivity. Qed.

Example unreadable_not_json :
  unreadable demo_platform (Some (encrypt demo_platform "{key:")).
Proof.
  apply (unreadable_unparsable demo_platform _ "{key:").
  - apply decrypt_encrypt.
  - vm_compute. reflexivity.
Qed.

(** C9. Without a stored license [hasFeature] is false for every name, the
    empty one included; with a stored license it is true exactly for the
    members of [features]. *)
Theorem C9_hasFeature
  (P : Platform) (w : World) (lic : StoredLicense) (name : string) (t : Z) :
  hasFeature name (set_storedLicense None w) = false
  /\ hasFeature "" (set_storedLicense None w) = false
  /\ hasFeature name (LicenseHandler_new P None t) = false
  /\ (hasFeature name (set_storedLicense (Some lic) w) = true
      <-> In name (features (licenseInfo lic))).
Proof.
  repeat split; try reflexivity.
  - unfold hasFeature. cbn [set_storedLicense storedLicense].
    intros H. apply existsb_exists in H. destruct H as (f & Hin & Heq).
    apply String.eqb_eq in Heq. now subst.
  - unfold hasFeature. cbn [set_storedLicense storedLicense].
    intros H. apply existsb_exists. exists name. split; [exact H | apply String.eqb_refl].
Qed.

(** C10. Without a stored license [needsRenewal] is false; with one it is
    true exactly when the cached [days_remaining] is at most the threshold
    (30 when left out).  The answer is a function of [days_remaining] and the
    threshold alone: [expires_at] and the clock are not consulted. *)
Theorem C10_needsRenewal
  (w : World) (lic : StoredLicense) (daysThreshold : option Z) :
  let threshold := match daysThreshold with Some d => d | None => 30%Z end in
  needsRenewal daysThreshold (set_storedLicense None w) = false
  /\ (needsRenewal daysThreshold (set_storedLicense (Some lic) w) = true
      <-> (days_remaining (licenseInfo lic) <= threshold)%Z)
  /\ (forall lic' w',
        days_remaining (licenseInfo lic') = days_remaining (licenseInfo lic) ->
        needsRenewal daysThreshold (set_storedLicense (Some lic') w')
        = needsRenewal daysThreshold (set_storedLicense (Some lic) w)).
Proof.
  intros threshold. repeat split.
  - unfold needsRenewal. cbn [set_storedLicense storedLicense].
    intros H. now apply Z.leb_le.
  - unfold needsRenewal. cbn [set_storedLicense storedLicense].
    intros H. now apply Z.leb_le.
  - intros lic' w' H. unfold needsRenewal. cbn [set_storedLicense storedLicense].
    now rewrite H.
Qed.

End Claims.

(** ** Further properties of the handler *)

Module Extras.
Import GF256 JSON License LicenseFacts Demo Application Scenarios.

#[local] Arguments encrypt : simpl never.
#[local] Arguments decrypt : simpl never.
#[local] Arguments JSON_stringify : simpl never.
#[local] Arguments JSON_parse : simpl never.
#[local] Arguments getHardwareId : simpl never.

Lemma activateLicense_unfold (P : Platform) (e : Env) (k : string) (w : World) :
  activateLicense P e k w
  = let w1 := snd (axios_post e (activation_request P e k) w) in
    match respond e (activation_request P e k) with
    | Resolved (BodySuccess data) =>
        ({| valid := true; message := "License activated successfully";
            info := Some data |},
         saveStoredLicense P
           (set_storedLicense
              (Some {| key := k; hardwareId := getHardwareId P (host e);
                       licenseInfo := data;
                       lastVerified := toISOString P (now w1);
                       activatedAt := toISOString P (now w1) |}) w1))
    | Resolved (BodyFailure msg) => (invalid (or_default msg "Activation failed"), w1)
    | Rejected (Some r) =>
        (invalid (or_default (error_message r) "Activation failed"), w1)
    | Rejected None =>
        (invalid
           "Unable to connect to license server. Please check your internet connection.",
         w1)
    end.
Proof. reflexivity. Qed.



(** X2. An activation that the server does not accept answers invalid, with
    no data, and changes neither the record in memory nor the license file:
    a license that was active stays active. *)
Theorem X2_failed_activation_changes_nothing
  (P : Platform) (e : Env) (licenseKey : string) (w : World) :
  (forall data, respond e (activation_request P e licenseKey) <> Resolved (BodySuccess data)) ->
  let r := activateLicense P e licenseKey w in
  valid (fst r) = false
  /\ info (fst r) = None
  /\ storedLicense (snd r) = storedLicense w
  /\ licenseFile (snd r) = licenseFile w.
Proof.
  intros Hr r. unfold r. rewrite activateLicense_unfold. cbv zeta.
  destruct (respond e (activation_request P e licenseKey)) as [[data|msg]|[r0|]];
    [exfalso; now apply (Hr data) | | |]; repeat split.
Qed.

Lemma X2_failed_activation_changes_nothing_witness :
  let w := world_with demo_license hour in
  let r := activateLicense demo_platform (demo_env demo_host rejecting) "NEW-456" w in
  valid (fst r) = false
  /\ storedLicense (snd r) = Some demo_license
  /\ licenseFile (snd r) = licenseFile w.
Proof.
  intros w r.
  destruct (X2_failed_activation_changes_nothing demo_platform
              (demo_env demo_host rejecting) "NEW-456" w)
    as (A1 & _ & A3 & A4).
  - intros data. vm_compute. discriminate.
  - repeat split; assumption.
Defined.


(** [verifyLicense] once its two local checks have passed. *)
Lemma verifyLicense_checked
  (P : Platform) (silent : bool) (e : Env) (w : World) (lic : StoredLicense) :
  storedLicense w = Some lic ->
  hardwareId lic = getHardwareId P (host e) ->
  date_lt (Date_parse P (expires_at (licenseInfo lic))) (Some (now w)) = false ->
  verifyLicense P silent e w
  = let w1 := snd (axios_post e (verification_request P e lic) w) in
    match respond e (verification_request P e lic) with
    | Resolved (BodySuccess data) =>
        ({| valid := true; message := "License is valid"; info := Some data |},
         saveStoredLicense P
           (set_storedLicense
              (Some {| key := key lic; hardwareId := hardwareId lic; licenseInfo := data;
                       lastVerified := toISOString P (now w1);
                       activatedAt := activatedAt lic |}) w1))
    | Resolved (BodyFailure msg) =>
        (invalid (or_default msg "License verification failed"),
         if silent then w1 else snd (deactivateLicense P e w1))
    | Rejected response =>
        if is_invalid_404 response then
          (invalid (or_default (response_message response) "Invalid license"), w1)
        else if number_lt (hours_since (Date_parse P (lastVerified lic)) (now w1)) 72 then
          ({| valid := true; message := "License valid (offline mode)";
              info := Some (licenseInfo lic) |}, w1)
        else (invalid "Unable to verify license. Please connect to the internet.", w1)
    end.
Proof.
  intros Hl Hh He. unfold verifyLicense.
  rewrite Hl, Hh, String.eqb_refl. cbn [negb]. rewrite He. reflexivity.
Qed.

(** The record and the clock after a verification that the server accepts. *)
Lemma accepted_verification_state
  (P : Platform) (silent : bool) (e : Env) (w : World) (lic : StoredLicense)
  (data : LicenseInfo) :
  storedLicense w = Some lic ->
  hardwareId lic = getHardwareId P (host e) ->
  date_lt (Date_parse P (expires_at (licenseInfo lic))) (Some (now w)) = false ->
  respond e (verification_request P e lic) = Resolved (BodySuccess data) ->
  storedLicense (snd (verifyLicense P silent e w))
  = Some {| key := key lic; hardwareId := hardwareId lic; licenseInfo := data;
            lastVerified :=
              toISOString P (now w + latency e (verification_request P e lic));
            activatedAt := activatedAt lic |}
  /\ now (snd (verifyLicense P silent e w))
     = (now w + latency e (verification_request P e lic))%Z.
Proof.
  intros Hl Hh He Hr.
  rewrite (verifyLicense_checked P silent e w lic Hl Hh He). cbv zeta.
  rewrite Hr. cbn [snd]. split.
  - now rewrite storedLicense_saved.
  - reflexivity.
Qed.



(** X5. A reply with an error status that is not the pair 404 and
    ["INVALID"] (a 500, a 404 with another code) is handled exactly like no
    reply at all: same result, same world, so the offline grace period
    applies to it. *)
Theorem X5_server_error_is_handled_as_no_reply
  (P : Platform) (silent : bool) (e : Env) (w : World) (lic : StoredLicense)
  (r : ErrorResponse) :
  storedLicense w = Some lic ->
  respond e (verification_request P e lic) = Rejected (Some r) ->
  status r <> 404%Z \/ code r <> Some "INVALID" ->
  verifyLicense P silent e w = verifyLicense P silent (unreachable e) w.
Proof.
  intros Hl Hr Hn. unfold verifyLicense. rewrite Hl.
  change (host (unreachable e)) with (host e).
  destruct (negb _); [reflexivity|].
  destruct (date_lt _ _); [reflexivity|].
  cbn [axios_post unreachable respond latency host].
  change (VerifyRequest (key lic) (getHardwareId P (host e)) (APP_VERSION (host e)))
    with (verification_request P e lic).
  rewrite Hr.
  assert (H4 : is_invalid_404 (Some r) = false).
  { unfold is_invalid_404. destruct Hn as [Hs | Hc].
    - apply Z.eqb_neq in Hs. now rewrite Hs.
    - destruct (code r) as [c|]; [|now rewrite andb_false_r].
      assert (c <> "INVALID") by congruence.
      apply String.eqb_neq in H. rewrite H. now rewrite andb_false_r. }
  rewrite H4. reflexivity.
Qed.

Lemma X5_server_error_is_handled_as_no_reply_witness :
  (* an internal server error, one hour after the last verification *)
  valid (fst (verifyLicense demo_platform false (demo_env demo_host server_error)
                (world_with demo_license hour))) = true.
Proof.
  rewrite (X5_server_error_is_handled_as_no_reply demo_platform false
             (demo_env demo_host server_error) (world_with demo_license hour) demo_license
             {| status := 500; code := None; error_message := Some "Internal Server Error" |}
             eq_refl eq_refl).
  - vm_compute. reflexivity.
  - left. discriminate.
Defined.

(** X6. When [lastVerified] is not a date the elapsed time is not a number
    and the comparison with 72 fails: without a usable reply the answer is
    invalid with the reconnect message, however recent the record is. *)
Theorem X6_unreadable_lastVerified_gives_no_grace
  (P : Platform) (silent : bool) (e : Env) (w : World) (lic : StoredLicense)
  (response : option ErrorResponse) :
  storedLicense w = Some lic ->
  hardwareId lic = getHardwareId P (host e) ->
  date_lt (Date_parse P (expires_at (licenseInfo lic))) (Some (now w)) = false ->
  respond e (verification_request P e lic) = Rejected response ->
  is_invalid_404 response = false ->
  Date_parse P (lastVerified lic) = None ->
  verifyLicense P silent e w
  = (invalid "Unable to verify license. Please connect to the internet.",
     snd (axios_post e (verification_request P e lic) w)).
Proof.
  intros Hl Hh He Hr H4 Hd.
  rewrite (verifyLicense_checked P silent e w lic Hl Hh He). cbv zeta.
  now rewrite Hr, H4, Hd.
Qed.

Lemma X6_unreadable_lastVerified_gives_no_grace_witness :
  (* one hour after activation, server out of reach *)
  valid (fst (verifyLicense demo_platform true (demo_env demo_host offline)
                (world_with undated_license hour))) = false.
Proof.
  rewrite (X6_unreadable_lastVerified_gives_no_grace demo_platform true
             (demo_env demo_host offline) (world_with undated_license hour)
             undated_license None eq_refl eq_refl eq_refl eq_refl eq_refl eq_refl).
  reflexivity.
Defined.

(** X7. When [expires_at] is not a date the local expiry check never fires:
    whatever the clock says, a record bound to this machine is sent to the
    server for verification. *)
Theorem X7_unreadable_expiry_is_left_to_the_server
  (P : Platform) (silent : bool) (e : Env) (w : World) (lic : StoredLicense) :
  storedLicense w = Some lic ->
  hardwareId lic = getHardwareId P (host e) ->
  Date_parse P (expires_at (licenseInfo lic)) = None ->
  exists later,
    sent (snd (verifyLicense P silent e w))
    = sent w ++ verification_request P e lic :: later.
Proof.
  intros Hl Hh Hd.
  assert (He : date_lt (Date_parse P (expires_at (licenseInfo lic))) (Some (now w)) = false)
    by now rewrite Hd.
  rewrite (verifyLicense_checked P silent e w lic Hl Hh He). cbv zeta.
  destruct (respond e (verification_request P e lic)) as [[data|msg]|response].
  - exists []. reflexivity.
  - destruct silent.
    + exists []. reflexivity.
    + exists [DeactivateRequest (key lic) (getHardwareId P (host e))].
      cbn [snd]. unfold deactivateLicense. cbn [axios_post snd storedLicense].
      rewrite Hl. cbn [axios_post snd sent set_licenseFile set_storedLicense].
      now rewrite <- app_assoc.
  - destruct (is_invalid_404 response); [exists []; reflexivity|].
    destruct (number_lt _ _); exists []; reflexivity.
Qed.

Lemma X7_unreadable_expiry_is_left_to_the_server_witness :
  (* a thousand days after activation *)
  exists later,
    sent (snd (verifyLicense demo_platform true (demo_env demo_host accepting)
                 (world_with open_ended_license (24000 * hour))))
    = [] ++ verify_request :: later.
Proof.
  exact (X7_unreadable_expiry_is_left_to_the_server demo_platform true
           (demo_env demo_host accepting) (world_with open_ended_license (24000 * hour))
           open_ended_license eq_refl eq_refl eq_refl).
Defined.

(** X8. The periodic verification never revokes: after [verifyLicense(true)]
    a handler that held a license still holds one, a license file that
    existed still exists, and at most the verification request was posted,
    never a deactivation. *)
Theorem X8_periodic_verification_never_revokes
  (P : Platform) (e : Env) (w : World) (lic : StoredLicense) :
  storedLicense w = Some lic ->
  let w' := periodic_verification P e w in
  storedLicense w' <> None
  /\ (licenseFile w <> None -> licenseFile w' <> None)
  /\ (sent w' = sent w \/ sent w' = sent w ++ [verification_request P e lic]).
Proof.
  intros Hl w'. unfold w', periodic_verification, verifyLicense. rewrite Hl.
  assert (Hsame : storedLicense w <> None
                  /\ (licenseFile w <> None -> licenseFile w <> None)
                  /\ (sent w = sent w \/ sent w = sent w ++ [verification_request P e lic])).
  { rewrite Hl. repeat split; auto. discriminate. }
  destruct (negb _); [exact Hsame|].
  destruct (date_lt _ _); [exact Hsame|].
  cbn [axios_post].
  destruct (respond e _) as [[data|msg]|response]; cbn [snd].
  - split; [rewrite storedLicense_saved; discriminate|].
    split; [intros _; discriminate | right; reflexivity].
  - cbn [storedLicense licenseFile sent]. rewrite Hl.
    split; [discriminate|]. split; [auto | right; reflexivity].
  - destruct (is_invalid_404 response); [|destruct (number_lt _ _)];
      cbn [snd storedLicense licenseFile sent]; rewrite Hl;
      (split; [discriminate|]); (split; [auto | right; reflexivity]).
Qed.

Lemma X8_periodic_verification_never_revokes_witness :
  (* the server rejects the license during a periodic check *)
  let w := world_with demo_license hour in
  let w' := periodic_verification demo_platform (demo_env demo_host rejecting) w in
  storedLicense w' <> None /\ licenseFile w' <> None.
Proof.
  intros w w'.
  destruct (X8_periodic_verification_never_revokes demo_platform
              (demo_env demo_host rejecting) w demo_license eq_refl)
    as (A1 & A2 & _).
  split; [exact A1 | apply A2]. vm_compute. discriminate.
Defined.

(** X9. [verifyLicense] never changes the identity of a record: whenever a
    record is held before and after the call, its [key], [hardwareId] and
    [activatedAt] are the same. *)
Theorem X9_verification_keeps_identity
  (P : Platform) (silent : bool) (e : Env) (w : World) (lic lic' : StoredLicense) :
  storedLicense w = Some lic ->
  storedLicense (snd (verifyLicense P silent e w)) = Some lic' ->
  key lic' = key lic /\ hardwareId lic' = hardwareId lic /\ activatedAt lic' = activatedAt lic.
Proof.
  intros Hl. unfold verifyLicense. rewrite Hl.
  assert (Hsame : storedLicense w = Some lic' ->
                  key lic' = key lic /\ hardwareId lic' = hardwareId lic
                  /\ activatedAt lic' = activatedAt lic).
  { rewrite Hl. intros H. injection H as <-. auto. }
  destruct (negb _); [exact Hsame|].
  destruct (date_lt _ _); [exact Hsame|].
  cbn [axios_post].
  destruct (respond e _) as [[data|msg]|response]; cbn [snd].
  - rewrite storedLicense_saved. cbn [set_storedLicense storedLicense].
    intros H. injection H as <-. auto.
  - destruct silent; cbn [storedLicense]; [exact Hsame|].
    unfold deactivateLicense. cbn [storedLicense]. rewrite Hl. discriminate.
  - destruct (is_invalid_404 response); [|destruct (number_lt _ _)];
      cbn [snd storedLicense]; exact Hsame.
Qed.

Lemma X9_verification_keeps_identity_witness :
  let r := verifyLicense demo_platform false (demo_env demo_host renewing)
             (world_with demo_license hour) in
  option_map key (storedLicense (snd r)) = Some "ABC-123"
  /\ option_map activatedAt (storedLicense (snd r)) = Some "0".
Proof.
  intros r.
  destruct (storedLicense (snd r)) as [lic'|] eqn:Hs; [|vm_compute in Hs; discriminate Hs].
  destruct (X9_verification_keeps_identity demo_platform false
              (demo_env demo_host renewing) (world_with demo_license hour)
              demo_license lic' eq_refl Hs)
    as (A1 & _ & A3).
  cbn [option_map]. rewrite A1, A3. split; reflexivity.
Defined.

(** X10. After [deactivateLicense] the handler is unactivated for every
    caller: [verifyLicense] answers "No license found" without posting
    anything, [hasFeature] and [needsRenewal] are false and [getLicenseInfo]
    is null.  The call itself posted one deactivation request, with the key
    of the record and the fingerprint of this machine, when a record was
    held, and nothing otherwise. *)
Theorem X10_deactivated_handler_is_unactivated
  (P : Platform) (e : Env) (w : World) :
  let w' := snd (deactivateLicense P e w) in
  (forall silent e', verifyLicense P silent e' w' = (invalid "No license found", w'))
  /\ (forall feature, hasFeature feature w' = false)
  /\ (forall daysThreshold, needsRenewal daysThreshold w' = false)
  /\ getLicenseInfo w' = None
  /\ sent w'
     = sent w ++ match storedLicense w with
                 | Some lic => [DeactivateRequest (key lic) (getHardwareId P (host e))]
                 | None => []
                 end.
Proof.
  intros w'.
  assert (Hn : storedLicense w' = None).
  { unfold w', deactivateLicense. destruct (storedLicense w) eqn:Hl; [reflexivity|exact Hl]. }
  split; [intros silent e'; unfold verifyLicense; now rewrite Hn|].
  split; [intros feature; unfold hasFeature; now rewrite Hn|].
  split; [intros th; unfold needsRenewal; now rewrite Hn|].
  split; [unfold getLicenseInfo; now rewrite Hn|].
  unfold w', deactivateLicense. destruct (storedLicense w) as [lic|].
  - reflexivity.
  - cbn [snd]. now rewrite app_nil_r.
Qed.



Lemma date_lt_earlier (d : option Z) (t dt : Z) :
  (0 <= dt)%Z -> date_lt d (Some (t + dt)%Z) = false -> date_lt d (Some t) = false.
Proof.
  intros Hdt. destruct d as [x|]; [|reflexivity]. cbn [date_lt].
  rewrite !Z.ltb_ge. lia.
Qed.

Lemma number_lt_earlier (d : option Z) (t dt : Z) :
  (0 <= dt)%Z ->
  number_lt (hours_since d (t + dt)%Z) 72 = true -> number_lt (hours_since d t) 72 = true.
Proof.
  intros Hdt. destruct d as [x|]; [|discriminate].
  rewrite !number_lt_hours, !Z.ltb_lt. lia.
Qed.

(** X12. Without a reachable server the answer of [verifyLicense] can only
    decay with time: if a verification made [dt >= 0] later is valid, the
    verification made now is valid too.  Once the grace period or the license
    has run out, waiting does not bring validity back. *)
Theorem X12_offline_validity_only_decays
  (P : Platform) (silent : bool) (e : Env) (w : World) (dt : Z) :
  (0 <= dt)%Z ->
  valid (fst (verifyLicense P silent (unreachable e) (advance dt w))) = true ->
  valid (fst (verifyLicense P silent (unreachable e) w)) = true.
Proof.
  intros Hdt.
  destruct (storedLicense w) as [lic|] eqn:Hl.
  2: { unfold verifyLicense. cbn [advance storedLicense]. now rewrite Hl. }
  destruct (String.eqb_spec (hardwareId lic) (getHardwareId P (host e))) as [Hh | Hh].
  2: { apply String.eqb_neq in Hh. unfold verifyLicense. cbn [advance storedLicense].
       rewrite Hl. change (host (unreachable e)) with (host e). now rewrite Hh. }
  destruct (date_lt (Date_parse P (expires_at (licenseInfo lic))) (Some (now w + dt)%Z))
    eqn:He.
  { unfold verifyLicense at 1. cbn [advance storedLicense now]. rewrite Hl.
    change (host (unreachable e)) with (host e).
    rewrite Hh, String.eqb_refl. cbn [negb]. rewrite He. discriminate. }
  rewrite (verifyLicense_checked P silent (unreachable e) (advance dt w) lic Hl Hh He).
  apply date_lt_earlier in He; [|exact Hdt].
  rewrite (verifyLicense_checked P silent (unreachable e) w lic Hl Hh He).
  cbv zeta. cbn [respond unreachable is_invalid_404 axios_post snd now advance latency].
  set (lat := latency e (verification_request P (unreachable e) lic)).
  destruct (number_lt (hours_since (Date_parse P (lastVerified lic)) (now w + dt + lat)) 72)
    eqn:Hn; [|discriminate].
  intros _.
  replace (now w + dt + lat)%Z with (now w + lat + dt)%Z in Hn by lia.
  apply number_lt_earlier in Hn; [|exact Hdt]. now rewrite Hn.
Qed.

Lemma X12_offline_validity_only_decays_witness :
  (* valid after 71 hours offline, hence valid after 70 *)
  valid (fst (verifyLicense demo_platform true (unreachable (demo_env demo_host accepting))
                (world_with demo_license (70 * hour)))) = true.
Proof.
  apply (X12_offline_validity_only_decays demo_platform true (demo_env demo_host accepting)
           (world_with demo_license (70 * hour)) hour).
  - vm_compute. discriminate.
  - vm_compute. reflexivity.
Defined.

(** X13. A successful verification renews the grace period: when [Date]
    reads back the time stamp written at the reply, and the new data has not
    expired, a later verification that gets no reply is valid with the new
    data as long as fewer than 72 hours separate it from the reply. *)
Theorem X13_success_renews_the_grace_period
  (P : Platform) (silent silent' : bool) (e : Env) (w : World) (lic : StoredLicense)
  (data : LicenseInfo) (x dt : Z) :
  storedLicense w = Some lic ->
  hardwareId lic = getHardwareId P (host e) ->
  date_lt (Date_parse P (expires_at (licenseInfo lic))) (Some (now w)) = false ->
  respond e (verification_request P e lic) = Resolved (BodySuccess data) ->
  let reply_time := (now w + latency e (verification_request P e lic))%Z in
  Date_parse P (toISOString P reply_time) = Some reply_time ->
  Date_parse P (expires_at data) = Some x ->
  (reply_time + dt <= x)%Z ->
  (dt + latency e (verification_request P e lic) < 72 * 3600000)%Z ->
  let later := advance dt (snd (verifyLicense P silent e w)) in
  let r := verifyLicense P silent' (unreachable e) later in
  valid (fst r) = true
  /\ info (fst r) = Some data
  /\ storedLicense (snd r) = storedLicense later
  /\ licenseFile (snd r) = licenseFile later.
Proof.
  intros Hl Hh He Hr reply_time Hd Hx Hle Hlt later r.
  destruct (accepted_verification_state P silent e w lic data Hl Hh He Hr) as (Hs & Hnow).
  assert (Hls : storedLicense later
                = Some {| key := key lic; hardwareId := hardwareId lic; licenseInfo := data;
                          lastVerified := toISOString P reply_time;
                          activatedAt := activatedAt lic |}) by exact Hs.
  assert (Hln : now later = (reply_time + dt)%Z).
  { unfold later. cbn [advance now]. now rewrite Hnow. }
  assert (Hres : r = ({| valid := true; message := "License valid (offline mode)";
                         info := Some data |},
                      snd (axios_post (unreachable e)
                             (verification_request P (unreachable e)
                                {| key := key lic; hardwareId := hardwareId lic;
                                   licenseInfo := data;
                                   lastVerified := toISOString P reply_time;
                                   activatedAt := activatedAt lic |}) later))).
  { unfold r. rewrite (verifyLicense_checked P silent' (unreachable e) later _ Hls).
    - cbv zeta. cbn [respond unreachable is_invalid_404 lastVerified licenseInfo].
      rewrite Hd, number_lt_hours. cbn [axios_post snd now unreachable latency].
      rewrite Hln.
      replace (_ <? 259200000)%Z with true; [reflexivity|].
      symmetry. apply Z.ltb_lt.
      change (verification_request P (unreachable e) _) with (verification_request P e lic).
      lia.
    - exact Hh.
    - cbn [licenseInfo]. rewrite Hx, Hln. cbn [date_lt]. apply Z.ltb_ge. lia. }
  rewrite Hres. repeat split.
Qed.

Lemma X13_success_renews_the_grace_period_witness :
  (* renewed one hour after activation, then 71 hours without network *)
  let later := advance (71 * hour)
                 (snd (verifyLicense demo_platform true (demo_env demo_host renewing)
                         (world_with demo_license hour))) in
  let r := verifyLicense demo_platform false (unreachable (demo_env demo_host renewing))
             later in
  valid (fst r) = true /\ info (fst r) = Some renewed_info.
Proof.
  intros later r.
  destruct (X13_success_renews_the_grace_period demo_platform true false
              (demo_env demo_host renewing) (world_with demo_license hour) demo_license
              renewed_info 34128000000 (71 * hour)
              eq_refl eq_refl eq_refl eq_refl eq_refl eq_refl
              ltac:(vm_compute; discriminate) ltac:(vm_compute; reflexivity))
    as (A1 & A2 & _).
  split; assumption.
Defined.

(** *** The license file *)

Lemma length_list_ascii_of_string (s : string) :
  length (list_ascii_of_string s) = String.length s.
Proof. induction s as [|c s IH]; simpl; [reflexivity | now rewrite IH]. Qed.

Lemma length_string_of_list_ascii (l : list ascii) :
  String.length (string_of_list_ascii l) = length l.
Proof. induction l as [|c l IH]; simpl; [reflexivity | now rewrite IH]. Qed.

Lemma length_pad (l : list byte) : length (CBC.pad l) = 16 * (length l / 16 + 1).
Proof.
  unfold CBC.pad. rewrite length_app, repeat_length.
  pose proof (Nat.div_mod_eq (length l) 16).
  pose proof (Nat.mod_upper_bound (length l) 16). lia.
Qed.

Lemma length_cipher (key iv text : list byte) :
  length (CBC.cipher key iv text) = 16 * (length text / 16 + 1).
Proof.
  unfold CBC.cipher.
  rewrite CBCFacts.length_unchunk, CBCFacts.length_cbc_encrypt.
  now rewrite (CBCFacts.length_chunk (length text / 16 + 1)) by apply length_pad.
Qed.

Lemma lower_hex_of_byte (b : byte) : forallb lower_hex (Hex.hex_of_byte b) = true.
Proof. destruct b as [[] [] [] [] [] [] [] []]; reflexivity. Qed.

Lemma lower_hex_encode (l : list byte) :
  forallb lower_hex (list_ascii_of_string (Hex.hex_encode l)) = true.
Proof.
  unfold Hex.hex_encode. rewrite list_ascii_of_string_of_list_ascii.
  induction l as [|b l IH]; [reflexivity|].
  change (flat_map Hex.hex_of_byte (b :: l))
    with (Hex.hex_of_byte b ++ flat_map Hex.hex_of_byte l).
  now rewrite forallb_app, lower_hex_of_byte, IH.
Qed.

(** X14. The text [encrypt] returns consists of the characters [0-9a-f]
    only, and its length is fixed by the length of the plain text: 32
    characters for each block of 16 bytes, padding included, so between 1 and
    16 bytes of padding are always added. *)
Theorem X14_encrypt_output
  (P : Platform) (text : string) :
  forallb lower_hex (list_ascii_of_string (encrypt P text)) = true
  /\ String.length (encrypt P text) = 32 * (String.length text / 16 + 1).
Proof.
  unfold encrypt. split.
  - apply lower_hex_encode.
  - rewrite HexFacts.length_hex_encode, length_cipher, length_list_ascii_of_string. lia.
Qed.



(** *** A license file cut short *)

Lemma printable_escape_char (c : ascii) : forallb printable (escape_char c) = true.
Proof. destruct c as [[] [] [] [] [] [] [] []]; reflexivity. Qed.

Lemma printable_quote (s : string) : forallb printable (quote s) = true.
Proof.
  unfold quote. cbn [forallb]. rewrite forallb_app. cbn [forallb].
  replace (printable dquote) with true by reflexivity. cbn [andb]. rewrite andb_true_r.
  induction (list_ascii_of_string s) as [|c l IH]; [reflexivity|].
  change (flat_map escape_char (c :: l)) with (escape_char c ++ flat_map escape_char l).
  now rewrite forallb_app, printable_escape_char, IH.
Qed.

Lemma printable_chars_of_uint (d : Decimal.uint) :
  forallb printable (chars_of_uint d) = true.
Proof. induction d; simpl; try rewrite IHd; reflexivity. Qed.

Lemma printable_print_Z (z : Z) : forallb printable (print_Z z) = true.
Proof.
  unfold print_Z. rewrite forallb_app, printable_chars_of_uint.
  now destruct (z <? 0)%Z.
Qed.

Lemma printable_join (ls : list chars) :
  forallb (forallb printable) ls = true -> forallb printable (join ls) = true.
Proof.
  induction ls as [|x ls IH]; [reflexivity|].
  cbn [forallb]. intros H. apply andb_true_iff in H. destruct H as [Hx Hls].
  destruct ls as [|y ls]; [exact Hx|].
  rewrite JSONFacts.join_cons by discriminate.
  rewrite forallb_app. cbn [forallb]. rewrite Hx, (IH Hls). reflexivity.
Qed.

Lemma printable_print (v : json) : forallb printable (print v) = true.
Proof.
  induction v as [| b | z | m e | s | l IH | fs IH] using JSONFacts.json_nested_ind.
  - reflexivity.
  - now destruct b.
  - apply printable_print_Z.
  - cbn [print]. rewrite forallb_app. cbn [forallb].
    now rewrite !printable_print_Z.
  - apply printable_quote.
  - rewrite JSONFacts.print_array. cbn [forallb]. rewrite forallb_app. cbn [forallb].
    rewrite printable_join; [reflexivity|].
    induction IH as [|x l Hx _ IHl]; [reflexivity|].
    cbn [map forallb]. now rewrite Hx, IHl.
  - rewrite JSONFacts.print_object. cbn [forallb]. rewrite forallb_app. cbn [forallb].
    rewrite printable_join; [reflexivity|].
    induction IH as [|kv fs Hx _ IHl]; [reflexivity|].
    cbn [map forallb]. rewrite IHl, andb_true_r.
    unfold member_text. rewrite forallb_app. cbn [forallb].
    now rewrite printable_quote, Hx.
Qed.

Lemma forallb_firstn {A} (f : A -> bool) (n : nat) (l : list A) :
  forallb f l = true -> forallb f (firstn n l) = true.
Proof.
  revert l; induction n as [|n IH]; intros [|x l]; try reflexivity.
  cbn [firstn forallb]. intros H. apply andb_true_iff in H. destruct H as [Hx Hl].
  now rewrite Hx, (IH l Hl).
Qed.

Lemma printable_last (l : list byte) :
  forallb printable l = true -> l <> [] -> 16 < nat_of_ascii (last l zero).
Proof.
  induction l as [|x l IH]; [congruence|]. intros H _.
  cbn [forallb] in H. apply andb_true_iff in H. destruct H as [Hx Hl].
  destruct l as [|y l].
  - unfold printable in Hx. apply Nat.leb_le in Hx. cbn [last]. lia.
  - change (last (x :: y :: l) zero) with (last (y :: l) zero).
    apply IH; [exact Hl | discriminate].
Qed.

Lemma unpad_too_large (l : list byte) :
  16 < nat_of_ascii (last l zero) -> CBC.unpad l = None.
Proof.
  intros H. unfold CBC.unpad.
  replace (nat_of_ascii (last l zero) <=? 16) with false
    by (symmetry; apply Nat.leb_gt; exact H).
  now rewrite andb_false_r.
Qed.

Lemma firstn_unchunk (j : nat) (cs : list AES256.block) :
  firstn (16 * j) (CBC.unchunk cs) = CBC.unchunk (firstn j cs).
Proof.
  revert cs; induction j as [|j IH]; intros cs.
  - reflexivity.
  - destruct cs as [|c cs]; [reflexivity|].
    destruct c as [[[[[[a0 a1] a2] a3] [[[b0 b1] b2] b3]] [[[c0 c1] c2] c3]] [[[e0 e1] e2] e3]].
    replace (16 * S j) with (16 + 16 * j) by lia.
    unfold CBC.unchunk in *.
    cbn [Nat.add firstn flat_map AES256.bytes_of_block AES256.bytes_of_word app].
    now rewrite IH.
Qed.

Lemma unchunk_firstn_chunk (j : nat) (l : list byte) :
  16 * j <= length l -> CBC.unchunk (firstn j (CBC.chunk l)) = firstn (16 * j) l.
Proof.
  revert l; induction j as [|j IH]; intros l Hl.
  - reflexivity.
  - do 16 (destruct l as [|? l]; [simpl in Hl; lia|]).
    replace (16 * S j) with (16 + 16 * j) by lia.
    unfold CBC.unchunk in *.
    cbn [CBC.chunk Nat.add firstn flat_map AES256.bytes_of_block AES256.bytes_of_word app].
    rewrite IH by (simpl in Hl; lia). reflexivity.
Qed.

Lemma cbc_decrypt_prefix (rks : list AES256.block) (iv : AES256.block)
  (ps : list AES256.block) (j : nat) :
  CBC.cbc_decrypt rks iv (firstn j (CBC.cbc_encrypt rks iv ps)) = firstn j ps.
Proof.
  revert iv j; induction ps as [|p ps IH]; intros iv [|j]; try reflexivity.
  cbn [CBC.cbc_encrypt firstn CBC.cbc_decrypt].
  now rewrite AES256Facts.decrypt_encrypt_block, AES256Facts.xor_block_involutive, IH.
Qed.

Lemma substring_string_of_list_ascii (n : nat) (l : list ascii) :
  substring 0 n (string_of_list_ascii l) = string_of_list_ascii (firstn n l).
Proof.
  revert l; induction n as [|n IH]; intros [|c l]; try reflexivity.
  cbn [string_of_list_ascii substring firstn]. now rewrite IH.
Qed.

Lemma firstn_hex (m : nat) (l : list byte) :
  firstn (2 * m) (flat_map Hex.hex_of_byte l) = flat_map Hex.hex_of_byte (firstn m l).
Proof.
  revert l; induction m as [|m IH]; intros [|b l]; try reflexivity.
  replace (2 * S m) with (S (S (2 * m))) by lia.
  cbn [flat_map Hex.hex_of_byte app firstn]. now rewrite IH.
Qed.

(** The cipher text of a text without control characters, cut after [m]
    bytes, is refused by [decipher]. *)
Lemma decipher_prefix (key iv text : list byte) (m : nat) :
  forallb printable text = true ->
  m < length (CBC.cipher key iv text) ->
  CBC.decipher key iv (firstn m (CBC.cipher key iv text)) = None.
Proof.
  intros Hp Hm. rewrite length_cipher in Hm.
  unfold CBC.decipher.
  rewrite length_firstn, length_cipher.
  replace (Nat.min m (16 * (length text / 16 + 1))) with m by lia.
  destruct (Nat.eqb_spec m 0) as [H0 | H0]; [reflexivity|].
  destruct (Nat.eqb_spec (m mod 16) 0) as [H16 | H16]; [|reflexivity].
  cbn [orb negb].
  assert (Hj : m = 16 * (m / 16)).
  { pose proof (Nat.div_mod_eq m 16). lia. }
  set (j := m / 16) in *.
  assert (Hjt : 16 * j <= length text).
  { pose proof (Nat.div_mod_eq (length text) 16). lia. }
  rewrite Hj. unfold CBC.cipher.
  rewrite firstn_unchunk, CBCFacts.chunk_unchunk, cbc_decrypt_prefix.
  rewrite unchunk_firstn_chunk by (rewrite length_pad; lia).
  unfold CBC.pad. rewrite firstn_app.
  replace (16 * j - length text) with 0 by lia. rewrite firstn_O, app_nil_r.
  apply unpad_too_large. apply printable_last.
  - now apply forallb_firstn.
  - intros Hnil. apply (f_equal (@length byte)) in Hnil.
    rewrite length_firstn in Hnil. simpl in Hnil. lia.
Qed.

Lemma decrypt_prefix (P : Platform) (text : string) (n : nat) :
  forallb printable (list_ascii_of_string text) = true ->
  n < String.length (encrypt P text) ->
  decrypt P (substring 0 n (encrypt P text)) = None.
Proof.
  intros Hp Hn. unfold encrypt in *. unfold Hex.hex_encode in *.
  rewrite length_string_of_list_ascii in Hn.
  rewrite substring_string_of_list_ascii.
  unfold decrypt. rewrite length_string_of_list_ascii, length_firstn.
  replace (Nat.min n _) with n by lia.
  destruct (Nat.odd n) eqn:Ho; [reflexivity|].
  assert (He : Nat.even n = true) by (rewrite <- Nat.negb_odd, Ho; reflexivity).
  apply Nat.even_spec in He. destruct He as [m Hm]. subst n.
  rewrite firstn_hex.
  change (string_of_list_ascii (flat_map Hex.hex_of_byte ?l)) with (Hex.hex_encode l).
  rewrite HexFacts.hex_decode_encode.
  rewrite decipher_prefix; [reflexivity | exact Hp |].
  assert (Hl := HexFacts.length_hex_encode
                  (CBC.cipher (scryptSync P "license-encryption-key" "salt" 32)
                     (repeat zero 16) (list_ascii_of_string text))).
  unfold Hex.hex_encode in Hl. rewrite length_string_of_list_ascii in Hl. lia.
Qed.

(** X16. A saved license file that has been cut short, at any point, is
    refused by [decrypt]: the JSON text of a record holds no control
    character, so what is left never ends in valid padding.  The constructor
    then leaves the handler without a license. *)
Theorem X16_truncated_license_file_is_refused
  (P : Platform) (lic : StoredLicense) (n : nat) (t : Z) :
  let file := encrypt P (JSON_stringify lic) in
  n < String.length file ->
  decrypt P (substring 0 n file) = None
  /\ storedLicense (LicenseHandler_new P (Some (substring 0 n file)) t) = None.
Proof.
  intros file Hn.
  assert (Hd : decrypt P (substring 0 n file) = None).
  { apply decrypt_prefix; [|exact Hn].
    unfold JSON_stringify, stringify.
    rewrite list_ascii_of_string_of_list_ascii. apply printable_print. }
  split; [exact Hd|].
  unfold LicenseHandler_new, loadStoredLicense. cbn [licenseFile]. now rewrite Hd.
Qed.

Lemma X16_truncated_license_file_is_refused_witness :
  (* the saved license of the examples without its last block *)
  let file := encrypt demo_platform (JSON_stringify demo_license) in
  storedLicense
    (LicenseHandler_new demo_platform (Some (substring 0 (String.length file - 32) file)) 0)
  = None.
Proof.
  intros file.
  apply (X16_truncated_license_file_is_refused demo_platform demo_license
           (String.length file - 32) 0).
  apply Nat.ltb_lt. vm_compute. reflexivity.
Defined.

(** *** The hardware fingerprint *)




(** *** The callers in the main process *)

(** X18. The [deactivate-license] handler answers [success: true] whatever
    [deactivateLicense] returned: without a stored license the method reports
    [success: false] with "No license found", posts nothing and changes
    nothing, and the handler still answers success. *)
Theorem X18_ipc_deactivate_reports_success
  (P : Platform) (e : Env) (w : World) :
  storedLicense w = None ->
  ipc_deactivate_license P e w = (true, w)
  /\ deactivateLicense P e w = ({| success := false; notice := "No license found" |}, w).
Proof.
  intros H. unfold ipc_deactivate_license, deactivateLicense. now rewrite H.
Qed.

Lemma X18_ipc_deactivate_reports_success_witness :
  fst (ipc_deactivate_license demo_platform (demo_env demo_host offline)
         (LicenseHandler_new demo_platform None 0)) = true
  /\ success (fst (deactivateLicense demo_platform (demo_env demo_host offline)
                     (LicenseHandler_new demo_platform None 0))) = false.
Proof.
  destruct (X18_ipc_deactivate_reports_success demo_platform (demo_env demo_host offline)
              (LicenseHandler_new demo_platform None 0) eq_refl) as [A1 A2].
  rewrite A1, A2. split; reflexivity.
Defined.

(** X19. [needsRenewal] is monotone in its threshold: a renewal that is
    needed at one threshold is needed at every larger one; leaving the
    threshold out is the same as passing 30. *)
Theorem X19_needsRenewal_is_monotone
  (w : World) (d d' : Z) :
  (d <= d')%Z ->
  needsRenewal (Some d) w = true ->
  needsRenewal (Some d') w = true /\ needsRenewal None w = needsRenewal (Some 30%Z) w.
Proof.
  intros Hd. unfold needsRenewal. destruct (storedLicense w) as [lic|]; [|discriminate].
  rewrite !Z.leb_le. intros H. split; [lia | reflexivity].
Qed.

Lemma X19_needsRenewal_is_monotone_witness :
  (* thirty days are left: a renewal needed at 30 is needed at 45 *)
  needsRenewal (Some 45%Z) (world_with demo_license 0) = true.
Proof.
  apply (X19_needsRenewal_is_monotone (world_with demo_license 0) 30 45).
  - vm_compute. discriminate.
  - reflexivity.
Defined.

End Extras.
